(** * Flavor resolution and release synchronisation of the CurseForge
      release pipeline ([src/main.py], class [ReleasePipeline])

    The development is a shallow embedding of the decision logic of
    [ReleasePipeline]: the built-in classifier [toc_to_type], the external
    classifier [_bash_toc_to_type] (extraction of the shell routine and its
    execution by the host's interpreter), the resolver [_pick_slug], the
    selection of the latest builds [_get_latest_files], the interface numbers
    of [_build_manifest] and the publish step [_get_or_create_release].

    Conventions.
    - Python [int] is [Z]; Python [str] is [string], one [ascii] per
      character, so the text handled here is the text whose code points are
      below 256.
    - A Python exception is a value of [exn]; a computation that may raise
      has type [result A] ([inl e] is "raise e").
    - A Python [set] of strings is a [gset string], a [dict] keyed by
      integers a [gmap Z _].
    - The host (the cached [release.sh] and the interpreter
      [/opt/homebrew/bin/bash]) is a value of type [Host]; it does not
      change while a run lasts, and the accesses a computation makes to it
      are recorded, in order, in a log. *)

From Stdlib Require Import ZArith String Ascii List DecimalString DecimalZ Lia.
From stdpp Require Import base strings gmap list.

Open Scope string_scope.
Open Scope list_scope.
Open Scope Z_scope.

(** ** Python primitives *)

Module Py.

(** The exceptions the modelled code can raise. *)
Inductive exn : Type :=
| FileNotFoundError
| FunctionExtractionError
| CalledProcessError
| ValueError
| IndexError
| KeyError
| HTTPError.

#[global] Instance exn_eq_dec : EqDecision exn.
Proof. solve_decision. Defined.

Definition result (A : Type) : Type := exn + A.

Definition ok {A} (a : A) : result A := inr a.
Definition throw {A} (e : exn) : result A := inl e.

Definition rbind {A B} (r : result A) (f : A -> result B) : result B :=
  match r with
  | inl e => inl e
  | inr a => f a
  end.

(** [[f(x) for x in l]]: left to right, the first exception ends it. *)
Fixpoint rmap {A B} (f : A -> result B) (l : list A) : result (list B) :=
  match l with
  | [] => ok []
  | x :: l' =>
      rbind (f x) (fun y => rbind (rmap f l') (fun ys => ok (y :: ys)))
  end.

(** [l[i]] *)
Definition index {A} (l : list A) (i : nat) : result A :=
  match l !! i with
  | Some x => ok x
  | None => throw IndexError
  end.

(** The line feed and the double quote, which have no literal. *)
Definition nl : string := String (ascii_of_nat 10) "".
Definition dq : string := String (ascii_of_nat 34) "".

(** [str.isspace] on one character, which is also the class [\s] of [re]
    on [str] patterns: TAB..CR, FS..US, SPACE, NEL and NBSP. *)
Definition isspace (c : ascii) : bool :=
  let n := Z.of_nat (nat_of_ascii c) in
  ((9 <=? n) && (n <=? 13)) || ((28 <=? n) && (n <=? 32))
  || (n =? 133) || (n =? 160).

Definition isdigit (c : ascii) : bool :=
  let n := Z.of_nat (nat_of_ascii c) in (48 <=? n) && (n <=? 57).

Definition digit_value (c : ascii) : Z := Z.of_nat (nat_of_ascii c) - 48.

Fixpoint lstrip (s : string) : string :=
  match s with
  | "" => ""
  | String c s' => if isspace c then lstrip s' else s
  end.

Fixpoint rstrip (s : string) : string :=
  match s with
  | "" => ""
  | String c s' =>
      match rstrip s' with
      | "" => if isspace c then "" else String c ""
      | r => String c r
      end
  end.

(** [s.strip()] *)
Definition strip (s : string) : string := rstrip (lstrip s).

(** [s.count(c)] for a one-character [c]. *)
Fixpoint count (c : ascii) (s : string) : Z :=
  match s with
  | "" => 0
  | String d s' => (if Ascii.eqb d c then 1 else 0) + count c s'
  end.

(** [s.split(c)] for a one-character separator [c]: never empty. *)
Fixpoint split (sep : ascii) (s : string) : list string :=
  match s with
  | "" => [""]
  | String c s' =>
      if Ascii.eqb c sep then "" :: split sep s'
      else match split sep s' with
           | [] => [String c ""]
           | p :: ps => String c p :: ps
           end
  end.

(** [s.startswith(p)] *)
Definition startswith (p s : string) : bool := String.prefix p s.

(** [len(s)] *)
Definition len (s : string) : Z := Z.of_nat (String.length s).

(** [str(z)]: decimal digits, ["-"] in front of a negative number. *)
Definition str (z : Z) : string := NilZero.string_of_int (Z.to_int z).

(** The digits of [int(s)]: decimal digits, single underscores allowed
    between two digits only. [after_digit] tells whether the previous
    character was a digit. *)
Fixpoint int_digits (acc : Z) (after_digit : bool) (s : string) : option Z :=
  match s with
  | "" => if after_digit then Some acc else None
  | String c s' =>
      if isdigit c then int_digits (acc * 10 + digit_value c) true s'
      else if Ascii.eqb c "_" then
             if after_digit then int_digits acc false s' else None
      else None
  end.

(** [int(s)] in base 10: surrounding whitespace, an optional sign, then
    the digits; [ValueError] otherwise. *)
Definition int (s : string) : result Z :=
  let body := strip s in
  let parsed :=
    match body with
    | String "-" d => option_map Z.opp (int_digits 0 false d)
    | String "+" d => int_digits 0 false d
    | _ => int_digits 0 false body
    end in
  match parsed with
  | Some z => ok z
  | None => throw ValueError
  end.

(** [max(l)]: [ValueError] on the empty list. *)
Definition max (l : list Z) : result Z :=
  match l with
  | [] => throw ValueError
  | x :: l' => ok (foldl Z.max x l')
  end.

End Py.

Import Py.

(** ** Data model: the JSON objects of the hosting service *)

(** An element of [info["sortableGameVersions"]]. *)
Record GameVersion : Type := {
  gameVersionName : string;
  gameVersionTypeId : Z
}.

(** An element of [data["latestFiles"]]. *)
Record FileInfo : Type := {
  id : Z;
  fileName : string;
  releaseType : Z;
  downloadUrl : string;
  sortableGameVersions : list GameVersion
}.

(** An element of [data["latestFilesIndexes"]]. *)
Record FileIndex : Type := {
  fileId : Z;
  gameVersion : string
}.

(** The object [r.json()["data"]] of [GET /mods/{modId}]; a key that is
    absent is [None] ([data.get(key, [])] supplies the empty list). *)
Record ModData : Type := {
  latestFiles : option (list FileInfo);
  latestFilesIndexes : option (list FileIndex)
}.

(** ** The built-in classifier *)

(** [ReleasePipeline.toc_to_type]. *)
Definition toc_to_type (toc_version : Z) : string :=
  let toc_version := str toc_version in
  if startswith "11" toc_version && (len toc_version =? 5) then "classic"
  else if startswith "20" toc_version then "bcc"
  else if startswith "30" toc_version then "wrath"
  else if startswith "40" toc_version then "cata"
  else "retail".

(** ** The host and the effects on it *)

(** What [subprocess.run(..., capture_output=True, text=True)] returns. *)
Record CompletedProcess : Type := {
  returncode : Z;
  stdout : string
}.

(** The host as the pipeline sees it: the lines of the local [release.sh]
    as [readlines()] gives them ([None] when the file does not exist), and
    the interpreter [/opt/homebrew/bin/bash] as a function from the lines of
    a script to the completed process ([None] when it is not installed). *)
Record Host : Type := {
  release_sh : option (list string);
  bash : option (list string -> CompletedProcess)
}.

(** The accesses to the host, as they are logged. *)
Inductive Event : Type :=
| OpenReleaseSh
| RunBash (script : list string).

(** A computation with effects on the host: its log and its outcome. *)
Definition M (A : Type) : Type := list Event * result A.

Definition ret {A} (a : A) : M A := ([], ok a).
Definition raise {A} (e : exn) : M A := ([], throw e).
Definition tell (ev : Event) : M unit := ([ev], ok tt).
Definition lift {A} (r : result A) : M A := ([], r).

Definition bind {A B} (m : M A) (f : A -> M B) : M B :=
  match m with
  | (log, inl e) => (log, inl e)
  | (log, inr a) => let '(log', r) := f a in (log ++ log', r)
  end.

(** [try: m except e: handler] *)
Definition try_except {A} (m : M A) (e : exn) (handler : M A) : M A :=
  match m with
  | (log, inl e') =>
      if decide (e' = e) then let '(log', r) := handler in (log ++ log', r)
      else (log, inl e')
  | (log, inr a) => (log, inr a)
  end.

Notation "x <- m ;; k" := (bind m (fun x => k))
  (at level 100, m at next level, right associativity).
Notation "m ;;; k" := (bind m (fun _ => k))
  (at level 100, right associativity).

(** [[f(x) for x in l]] with effects. *)
Fixpoint mmap {A B} (f : A -> M B) (l : list A) : M (list B) :=
  match l with
  | [] => ret []
  | x :: l' => y <- f x ;; ys <- mmap f l' ;; ret (y :: ys)
  end.

Definition log_of {A} (m : M A) : list Event := fst m.
Definition outcome {A} (m : M A) : result A := snd m.

(** ** The external classifier *)

(** [re.match(r"^\s*toc_to_type\s*\(\)\s*\{", line)]: each [\s*] is
    followed by a character that is not a space, so the greedy match never
    backtracks. *)
Definition expect (lit s : string) : option string :=
  if startswith lit s
  then Some (String.substring (String.length lit)
               (String.length s - String.length lit) s)
  else None.

Definition match_opening (line : string) : bool :=
  match expect "toc_to_type" (lstrip line) with
  | None => false
  | Some rest =>
      match expect "()" (lstrip rest) with
      | None => false
      | Some rest' => startswith "{" (lstrip rest')
      end
  end.

(** The scan loop of [_bash_toc_to_type] (lines 111-125), with its three
    variables; it returns their values when the loop is left, by [break] or
    at the end of [lines]. *)
Fixpoint scan (lines : list string) (capture : bool) (brace_count : Z)
    (func_body : list string) : bool * Z * list string :=
  match lines with
  | [] => (capture, brace_count, func_body)
  | line :: lines' =>
      if negb capture then
        if match_opening line
        then scan lines' true (brace_count + 1) (func_body ++ [line])
        else scan lines' capture brace_count func_body
      else
        let brace_count := brace_count + count "{" line in
        let brace_count := brace_count - count "}" line in
        let func_body := func_body ++ [line] in
        if brace_count =? 0 then (capture, brace_count, func_body)
        else scan lines' capture brace_count func_body
  end.

(** Lines 111-130: the extraction of the routine from the lines of
    [release.sh]. *)
Definition extract_routine (lines : list string) : result (list string) :=
  let '(_, brace_count, func_body) := scan lines false 0 [] in
  if negb (brace_count =? 0) then throw FunctionExtractionError
  else ok func_body.

(** The temporary script of lines 132-139. *)
Definition harness (func_body : list string) (interface : Z) : list string :=
  ["#!/usr/bin/env bash" +:+ nl]
  ++ func_body
  ++ ["toc_to_type " +:+ dq +:+ str interface +:+ dq +:+ " result" +:+ nl;
      "echo " +:+ dq +:+ "$result" +:+ dq +:+ nl].

(** [subprocess.run([bash, script], check=True)] on the host. *)
Definition run_checked (h : Host) (script : list string)
  : M CompletedProcess :=
  tell (RunBash script) ;;;
  match bash h with
  | None => raise FileNotFoundError
  | Some interp =>
      let r := interp script in
      if negb (returncode r =? 0) then raise CalledProcessError else ret r
  end.

(** [ReleasePipeline._bash_toc_to_type]. Writing the temporary file and
    removing it again ([finally]) leave no trace in the model. *)
Definition _bash_toc_to_type (h : Host) (interface : Z) : M string :=
  tell OpenReleaseSh ;;;
  lines <- match release_sh h with
           | None => raise FileNotFoundError
           | Some lines => ret lines
           end ;;
  func_body <- lift (extract_routine lines) ;;
  result <- run_checked h (harness func_body interface) ;;
  ret (strip (stdout result)).

(** ** The resolver *)

(** The interface number of one game version, as [_pick_slug] computes it
    (lines 197-200). *)
Definition pick_interface (gv : GameVersion) : result Z :=
  let parts := split "." (gameVersionName gv) in
  rbind (rbind (index parts 0) int) (fun major =>
  rbind (rbind (index parts 1) int) (fun minor =>
  rbind (if (2 <? Z.of_nat (length parts))
         then rbind (index parts 2) int else ok 0) (fun patch =>
  ok (major * 10000 + minor * 100 + patch)))).

(** [slugs.pop()]: some element of the set, [KeyError] when it is empty.
    The resolver pops a set of one element only. *)
Definition set_pop (s : gset string) : result string :=
  match elements s with
  | [] => throw KeyError
  | x :: _ => ok x
  end.

(** [ReleasePipeline._pick_slug]. *)
Definition _pick_slug (h : Host) (info : FileInfo) : M string :=
  ivals <- lift (rmap pick_interface (sortableGameVersions info)) ;;
  classified <-
    try_except
      (l <- mmap (_bash_toc_to_type h) ivals ;;
       ret (false, (list_to_set l : gset string)))
      FileNotFoundError
      (ret (true, (list_to_set (map toc_to_type ivals) : gset string))) ;;
  let fallback : bool := fst classified in
  let slugs : gset string := snd classified in
  if decide ("retail" ∈ slugs) then ret ""
  else if decide (size slugs = 1%nat) then lift (set_pop slugs)
  else if fallback then
         m <- lift (max ivals) ;; ret (toc_to_type m)
  else m <- lift (max ivals) ;; _bash_toc_to_type h m.

(** Line 298 of [run], restricted to the resolution: the builds are
    resolved one after the other, the first exception ends the run. *)
Definition resolve_all (h : Host) (files : list FileInfo) : M (list string) :=
  mmap (_pick_slug h) files.

(** ** Selection of the latest builds *)

(** A response of [requests]: the status and the decoded body. *)
Record Response (A : Type) : Type := {
  status_code : Z;
  json : A
}.
Arguments status_code {A} _.
Arguments json {A} _.

(** [r.raise_for_status()]: the client and server error statuses raise. *)
Definition raise_for_status {A} (r : Response A) : result unit :=
  if (400 <=? status_code r) && (status_code r <? 600) then throw HTTPError
  else ok tt.

(** The dict comprehension of lines 180-182: a later file with the same id
    replaces the earlier one. *)
Definition latest_by_id (files : list FileInfo) : gmap Z FileInfo :=
  foldl (fun d f => <[id f := f]> d) ∅
        (filter (fun f => releaseType f = 1) files).

(** The loop of lines 183-189 with its variables [seen] and [ordered]. *)
Fixpoint select_latest (latest : gmap Z FileInfo) (indexes : list FileIndex)
    (seen : gset Z) (ordered : list FileInfo) : list FileInfo :=
  match indexes with
  | [] => ordered
  | idx :: indexes' =>
      let fid := fileId idx in
      if bool_decide (fid ∉ seen) then
        match latest !! fid with
        | Some f => select_latest latest indexes' ({[fid]} ∪ seen) (ordered ++ [f])
        | None => select_latest latest indexes' seen ordered
        end
      else select_latest latest indexes' seen ordered
  end.

(** [ReleasePipeline._get_latest_files], from the response [r] of
    [GET /mods/{mod_id}]. *)
Definition _get_latest_files (r : Response ModData) : result (list FileInfo) :=
  rbind (raise_for_status r) (fun _ =>
  let data := json r in
  let latest := latest_by_id (default [] (latestFiles data)) in
  ok (select_latest latest (default [] (latestFilesIndexes data)) ∅ [])).

(** ** Interface numbers of the manifest *)

(** The interface number of one game version, as [_build_manifest]
    computes it (lines 244-249): every component is converted first. *)
Definition manifest_interface (gv : GameVersion) : result Z :=
  rbind (rmap int (split "." (gameVersionName gv))) (fun parts =>
  rbind (index parts 0) (fun p0 =>
  rbind (index parts 1) (fun p1 =>
  rbind (if (2 <? Z.of_nat (length parts)) then index parts 2 else ok 0)
        (fun p2 =>
  ok (p0 * 10000 + p1 * 100 + p2))))).

(** An element of [metadata]. *)
Record Metadata : Type := {
  flavor : string;
  interface : Z
}.

(** The list [md] that [_build_manifest] computes for one build
    (lines 240-250), given [self.version_types]. *)
Definition manifest_metadata (version_types : gmap Z string) (info : FileInfo)
  : result (list Metadata) :=
  rmap (fun gv =>
          let t := gameVersionTypeId gv in
          let fv := default "mainline" (version_types !! t) in
          rbind (manifest_interface gv) (fun iface =>
          ok {| flavor := fv; interface := iface |}))
       (sortableGameVersions info).

(** ** The publish step *)

(** The body of the create request (lines 267-273). *)
Record Payload : Type := {
  tag_name : string;
  name : string;
  body : string;
  draft : bool;
  prerelease : bool
}.

(** The requests sent to the source-hosting service. *)
Inductive Request : Type :=
| GET (url : string)
| POST (url : string) (payload : Payload).

(** The source-hosting service, with its state [S]: what it answers to a
    lookup, and what it answers to a creation and becomes by it. A JSON
    object is the map of its string-valued keys. *)
Record GitHub (S : Type) : Type := {
  gh_get : S -> string -> Response (gmap string string);
  gh_post : S -> string -> Payload -> S * Response (gmap string string)
}.
Arguments gh_get {S} _ _ _.
Arguments gh_post {S} _ _ _ _.

Definition GH_API : string := "https://api.github.com".

(** [repo.split("/", 1)] unpacked into two names: [None] when [repo] has
    no ["/"] (the unpacking then raises [ValueError]). *)
Fixpoint split_once (sep : ascii) (s : string) : option (string * string) :=
  match s with
  | "" => None
  | String c s' =>
      if Ascii.eqb c sep then Some ("", s')
      else match split_once sep s' with
           | None => None
           | Some (a, b) => Some (String c a, b)
           end
  end.

(** [ReleasePipeline._get_or_create_release]; [repo] is the value of
    [GITHUB_REPOSITORY]. It returns the state of the service, the requests
    sent and the outcome. *)
Definition _get_or_create_release {S} (gh : GitHub S) (repo : string)
    (tag body_md : string) (st : S) : S * list Request * result string :=
  match split_once "/" repo with
  | None => (st, [], throw ValueError)
  | Some (owner, name) =>
      let base := GH_API +:+ "/repos/" +:+ owner +:+ "/" +:+ name in
      let get_url := base +:+ "/releases/tags/" +:+ tag in
      let r := gh_get gh st get_url in
      let '(st, reqs, r) :=
        if status_code r =? 404 then
          let payload := {| tag_name := tag; name := tag; body := body_md;
                            draft := false; prerelease := false |} in
          let post_url := base +:+ "/releases" in
          let '(st', r') := gh_post gh st post_url payload in
          (st', [GET get_url; POST post_url payload], r')
        else (st, [GET get_url], r) in
      (st, reqs,
       rbind (raise_for_status r) (fun _ =>
       match json r !! "upload_url" with
       | None => throw KeyError
       | Some u => index (split "{" u) 0
       end))
  end.

(** Whether a creation request is among the requests. *)
Definition is_post (q : Request) : bool :=
  match q with
  | POST _ _ => true
  | GET _ => false
  end.

(** ** The version-type registry *)

(** An element of the listing of [GET /games/{gameId}/version-types]; the
    keys of the JSON object are ["id"] and ["slug"]. *)
Record VersionType : Type := {
  type_id : Z;
  slug : string
}.

(** [ReleasePipeline._load_version_types], from the response [r] of the
    listing: in the dict comprehension a later entry with the same id
    replaces the earlier one. *)
Definition _load_version_types (r : Response (list VersionType))
  : result (gmap Z string) :=
  rbind (raise_for_status r) (fun _ =>
  ok (foldl (fun d v => <[type_id v := slug v]> d) ∅ (json r))).

(** ** The local file name of a build *)

(** [s.endswith(suffix)] *)
Fixpoint endswith (suffix s : string) : bool :=
  String.eqb s suffix
  || match s with
     | "" => false
     | String _ s' => endswith suffix s'
     end.

(** [s.rsplit(sep, 1)] when [sep] occurs in [s]: the text before and after
    the last occurrence; [None] when [sep] does not occur (the result of
    [rsplit] is then [s] alone). [sep] is not empty. *)
Fixpoint rsplit_once (sep s : string) : option (string * string) :=
  match s with
  | "" => None
  | String c s' =>
      match rsplit_once sep s' with
      | Some (before, after) => Some (String c before, after)
      | None =>
          if startswith sep s
          then Some ("", String.substring (String.length sep)
                           (String.length s - String.length sep) s)
          else None
      end
  end.

(** Lines 218-221 of [_download_file]: the name under which the build is
    stored, from [info["fileName"]] and the resolved slug. *)
Definition local_filename (file_name slug_ : string) : string :=
  let base := match rsplit_once ".zip" file_name with
              | Some (before, _) => before
              | None => file_name
              end in
  let base := if negb (String.eqb slug_ "")
                 && negb (endswith ("-" +:+ slug_) base)
              then base +:+ "-" +:+ slug_
              else base in
  base +:+ ".zip".

(** [ReleasePipeline._download_file]; [cf_get] is what the mod-hosting
    service answers to a [GET] of a download URL. Writing the bytes to the
    local file leaves no trace in the model. *)
Definition _download_file (h : Host) (cf_get : string -> Response string)
    (info : FileInfo) : M (string * string * FileInfo) :=
  slug_ <- _pick_slug h info ;;
  let fn := local_filename (fileName info) slug_ in
  let r := cf_get (downloadUrl info) in
  lift (raise_for_status r) ;;;
  ret (fn, slug_, info).

(** ** The manifest *)

(** The longest run of decimal digits at the head of a string, and the
    rest. *)
Fixpoint span_digits (s : string) : string * string :=
  match s with
  | "" => ("", "")
  | String c s' =>
      if isdigit c
      then let '(digits, rest) := span_digits s' in (String c digits, rest)
      else ("", s)
  end.

(** [\d+] at the head of [s]: the digits matched and the rest. *)
Definition match_digits (s : string) : option (string * string) :=
  match span_digits s with
  | ("", _) => None
  | (digits, rest) => Some (digits, rest)
  end.

(** The pattern [\d+\.\d+\.\d+] at the head of [s]. Each [\d+] is
    followed by a character that is not a digit or ends the pattern, so
    the greedy match never backtracks. *)
Definition match_version (s : string) : option string :=
  match match_digits s with
  | Some (a, String "." s1) =>
      match match_digits s1 with
      | Some (b, String "." s2) =>
          match match_digits s2 with
          | Some (c, _) => Some (a +:+ "." +:+ b +:+ "." +:+ c)
          | None => None
          end
      | _ => None
      end
  | _ => None
  end.

(** [re.search(r"(\d+\.\d+\.\d+)", s)]: the match at the leftmost
    position that has one, [None] when there is none. *)
Fixpoint search_version (s : string) : option string :=
  match match_version s with
  | Some v => Some v
  | None =>
      match s with
      | "" => None
      | String _ s' => search_version s'
      end
  end.

Module Manifest.

(** An element of [m["releases"]]. *)
Record Entry : Type := {
  name : string;
  version : string;
  filename : string;
  nolib : bool;
  metadata : list Metadata
}.

End Manifest.

(** [ReleasePipeline._build_manifest]: the list [m["releases"]], given
    [self.mod_name] and [self.version_types]. *)
Definition _build_manifest (mod_name : string)
    (version_types : gmap Z string)
    (downloads : list (string * string * FileInfo))
  : result (list Manifest.Entry) :=
  rmap (fun d : string * string * FileInfo =>
          let '(fn, _, info) := d in
          let version := default "" (search_version fn) in
          rbind (manifest_metadata version_types info) (fun md =>
          ok {| Manifest.name := mod_name;
                Manifest.version := version;
                Manifest.filename := fn;
                Manifest.nolib := false;
                Manifest.metadata := md |}))
       downloads.

(** ** One run of the pipeline *)

(** The mod-hosting service as [run] reads it: the answer for the mod
    descriptor, for the download URL of a file (the body is the content of
    the file) and for the changelog of a file id (the body is the value of
    the key ["data"], [None] when the key is absent). *)
Record CurseForge : Type := {
  cf_mod : Response ModData;
  cf_file : string -> Response string;
  cf_changelog : Z -> Response (option string)
}.

(** [ReleasePipeline._fetch_changelog_md], from the response [r];
    [to_markdown] stands for [html_to_markdown], which is left to the
    HTML parser. *)
Definition _fetch_changelog_md (to_markdown : string -> string)
    (r : Response (option string)) : result string :=
  rbind (raise_for_status r) (fun _ =>
  ok (to_markdown (default "" (json r)))).

(** [sep.join(l)] *)
Fixpoint join (sep : string) (l : list string) : string :=
  match l with
  | [] => ""
  | [x] => x
  | x :: l' => x +:+ sep +:+ join sep l'
  end.

(** [os.path.basename(path)] *)
Definition basename (path : string) : string :=
  match rsplit_once "/" path with
  | Some (_, after) => after
  | None => path
  end.

(** An asset upload: the upload target, the query parameter [name], the
    content type and the bytes sent. *)
Record Upload : Type := {
  upload_to : string;
  asset_name : string;
  content_type : string;
  data : string
}.

(** What is sent to the source-hosting service. *)
Inductive Traffic : Type :=
| Release (q : Request)
| Asset (u : Upload).

(** The source-hosting service with its uploads: an upload is answered
    with a status. *)
Record Forge (S : Type) : Type := {
  forge_releases : GitHub S;
  forge_upload : S -> Upload -> S * Z
}.
Arguments forge_releases {S} _.
Arguments forge_upload {S} _ _ _.

(** [ReleasePipeline._upload_asset], with the files of the working
    directory [fs]: a file that does not exist cannot be opened. *)
Definition _upload_asset {S} (forge : Forge S) (upload_url fn ctype : string)
    (fs : gmap string string) (st : S) : S * list Traffic * result unit :=
  match fs !! fn with
  | None => (st, [], throw FileNotFoundError)
  | Some bytes =>
      let u := {| upload_to := upload_url; asset_name := basename fn;
                  content_type := ctype; data := bytes |} in
      let '(st', status) := forge_upload forge st u in
      (st', [Asset u],
       raise_for_status {| status_code := status; json := tt |})
  end.

(** The uploads of lines 309-311, one after the other: the first that
    raises ends them. *)
Fixpoint upload_all {S} (forge : Forge S) (upload_url : string)
    (assets : list (string * string)) (fs : gmap string string) (st : S)
  : S * list Traffic * result unit :=
  match assets with
  | [] => (st, [], ok tt)
  | (fn, ctype) :: assets' =>
      match _upload_asset forge upload_url fn ctype fs st with
      | (st', sent, inl e) => (st', sent, inl e)
      | (st', sent, inr _) =>
          let '(st'', sent', r) := upload_all forge upload_url assets' fs st'
          in (st'', sent ++ sent', r)
      end
  end.

(** Line 298: the builds are downloaded one after the other, each written
    under its local file name (opening a file for writing is taken to
    succeed); the first build that raises ends the loop. *)
Fixpoint download_all (h : Host) (cf : CurseForge) (files : list FileInfo)
    (fs : gmap string string)
  : list Event * gmap string string
    * result (list (string * string * FileInfo)) :=
  match files with
  | [] => ([], fs, ok [])
  | info :: files' =>
      match _download_file h (cf_file cf) info with
      | (log, inl e) => (log, fs, inl e)
      | (log, inr d) =>
          let fs' := <[d.1.1 := json (cf_file cf (downloadUrl info))]> fs in
          let '(log', fs'', r) := download_all h cf files' fs' in
          (log ++ log', fs'', rbind r (fun ds => ok (d :: ds)))
      end
  end.

(** How a run ends: it returns, it leaves the process by [sys.exit], or
    it raises. *)
Inductive Ending : Type :=
| Completed
| Exited (code : Z)
| Raised (e : exn).

(** What a run leaves behind. *)
Record RunResult (S : Type) : Type := {
  host_log : list Event;
  files_written : gmap string string;
  service : S;
  traffic : list Traffic;
  ending : Ending
}.
Arguments host_log {S} _.
Arguments files_written {S} _.
Arguments service {S} _.
Arguments traffic {S} _.
Arguments ending {S} _.

(** The separator of the changelogs in the body of the release. *)
Definition changelog_separator : string := nl +:+ nl +:+ "---" +:+ nl +:+ nl.

(** The body of [ReleasePipeline.run] (one attempt of the retry policy).
    [tag] is the tag that the clock gives, [repo] the value of
    [GITHUB_REPOSITORY], [dump] stands for [json.dump] of the manifest,
    [fs] for the files of the working directory and [st] for the state of
    the source-hosting service. *)
Definition run {S} (h : Host) (cf : CurseForge) (forge : Forge S)
    (to_markdown : string -> string)
    (dump : list Manifest.Entry -> string)
    (repo tag mod_name : string) (version_types : gmap Z string)
    (fs : gmap string string) (st : S) : RunResult S :=
  match _get_latest_files (cf_mod cf) with
  | inl e => {| host_log := []; files_written := fs; service := st;
                traffic := []; ending := Raised e |}
  | inr [] => {| host_log := []; files_written := fs; service := st;
                 traffic := []; ending := Exited 1 |}
  | inr files =>
      match download_all h cf files fs with
      | (log, fs1, inl e) =>
          {| host_log := log; files_written := fs1; service := st;
             traffic := []; ending := Raised e |}
      | (log, fs1, inr downloads) =>
          match _build_manifest mod_name version_types downloads with
          | inl e =>
              {| host_log := log; files_written := fs1; service := st;
                 traffic := []; ending := Raised e |}
          | inr manifest =>
              let fs2 := <["release.json" := dump manifest]> fs1 in
              match rmap (fun d : string * string * FileInfo =>
                            _fetch_changelog_md to_markdown
                              (cf_changelog cf (id d.2)))
                         downloads with
              | inl e =>
                  {| host_log := log; files_written := fs2; service := st;
                     traffic := []; ending := Raised e |}
              | inr changelogs =>
                  let body_md := join changelog_separator changelogs in
                  let '(st1, reqs, out) :=
                    _get_or_create_release (forge_releases forge) repo tag
                      body_md st in
                  match out with
                  | inl e =>
                      {| host_log := log; files_written := fs2;
                         service := st1; traffic := map Release reqs;
                         ending := Raised e |}
                  | inr upload_url =>
                      let assets :=
                        map (fun d : string * string * FileInfo =>
                               (d.1.1, "application/zip")) downloads
                        ++ [("release.json", "application/json")] in
                      let '(st2, sent, r) :=
                        upload_all forge upload_url assets fs2 st1 in
                      {| host_log := log; files_written := fs2;
                         service := st2;
                         traffic := map Release reqs ++ sent;
                         ending := match r with
                                   | inl e => Raised e
                                   | inr _ => Completed
                                   end |}
                  end
              end
          end
      end
  end.

(** ** Specification-level notions *)

(** The resolution policy in the words of the specification (section 4.3,
    steps 3 to 6) over a total classifier: collect the distinct slugs; the
    empty slug if "retail" is among them; the slug if there is exactly one;
    otherwise the classification of the maximum interface number. *)
Definition resolve_with (classify : Z -> string) (ivals : list Z)
  : result string :=
  let slugs : gset string := list_to_set (map classify ivals) in
  if decide ("retail" ∈ slugs) then ok ""
  else match elements slugs with
       | [s] => ok s
       | _ => rbind (max ivals) (fun m => ok (classify m))
       end.

(** The outcome of the external classifier on one interface number. *)
Definition external (h : Host) (interface : Z) : result string :=
  outcome (_bash_toc_to_type h interface).

(** The classifier [c] is the one a resolution of [ivals] on [h] works
    with: the external one when it answers on every number, the built-in
    one when a call of the external one raises [FileNotFoundError]. *)
Definition classified_by (h : Host) (ivals : list Z) (c : Z -> string)
  : Prop :=
  (∀ iv, iv ∈ ivals → external h iv = ok (c iv))
  ∨ ((∃ iv, iv ∈ ivals ∧ external h iv = throw FileNotFoundError)
     ∧ ∀ iv, c iv = toc_to_type iv).

(** The interface numbers of a build, as the resolver computes them. *)
Definition interfaces (info : FileInfo) : result (list Z) :=
  rmap pick_interface (sortableGameVersions info).

(** The excess of opening over closing braces in some lines. *)
Fixpoint balance (lines : list string) : Z :=
  match lines with
  | [] => 0
  | line :: lines' => count "{" line - count "}" line + balance lines'
  end.

Definition no_opening (lines : list string) : Prop :=
  Forall (fun line => match_opening line = false) lines.

(** End of input is reached with a counter that is not zero: some line
    opens the routine, and from the first such line on the counter (1
    after that line) is not back to zero after any of the lines that
    follow. *)
Definition unbalanced (lines : list string) : Prop :=
  ∃ pre line post,
    lines = pre ++ line :: post
    ∧ no_opening pre
    ∧ match_opening line = true
    ∧ ∀ k, (1 <= k <= length post)%nat → 1 + balance (take k post) ≠ 0.

(** A client or server error status, as [raise_for_status] sees it. *)
Definition is_error_status (status : Z) : Prop := 400 <= status < 600.

(** What the publish step returns from a response that carries a release:
    the value of ["upload_url"] up to its first opening brace. *)
Definition upload_target (r : Response (gmap string string)) : result string :=
  match json r !! "upload_url" with
  | None => throw KeyError
  | Some u => index (split "{" u) 0
  end.

(** A string of decimal digits. *)
Fixpoint digits_only (s : string) : bool :=
  match s with
  | "" => true
  | String c s' => isdigit c && digits_only s'
  end.

Definition number (s : string) : Prop := s ≠ "" ∧ digits_only s = true.

(** A three-part numeric run: three numbers separated by dots. *)
Definition version_run (v : string) : Prop :=
  ∃ a b c, number a ∧ number b ∧ number c
           ∧ v = a +:+ "." +:+ b +:+ "." +:+ c.

(** The slug the registry gives a version-type id: that of the last entry
    of the listing with this id, "mainline" when the listing has none. *)
Definition registry_slug (listing : list VersionType) (t : Z) : string :=
  match last (filter (fun v => type_id v = t) listing) with
  | Some v => slug v
  | None => "mainline"
  end.

(** The bands of the five-digit interface numbers, by thousands. *)
Definition within (z lo hi : Z) : bool := (lo <=? z) && (z <=? hi).

Definition band_of (z : Z) : string :=
  if within z 11000 11999 then "classic"
  else if within z 20000 20999 then "bcc"
  else if within z 30000 30999 then "wrath"
  else if within z 40000 40999 then "cata"
  else "retail".

(** Whether [toc_to_type] agrees with [f] on the [n] numbers from [z]. *)
Fixpoint agrees_from (f : Z -> string) (n : nat) (z : Z) : bool :=
  match n with
  | O => true
  | S n' => String.eqb (toc_to_type z) (f z) && agrees_from f n' (z + 1)
  end.

(** A service keeps its releases: when a creation is answered without an
    error status, the lookup of the tag created, in the state reached,
    is answered without an error status and with the JSON object of the
    release created. *)
Definition keeps_releases {S} (gh : GitHub S) : Prop :=
  ∀ (st : S) (base : string) (payload : Payload),
    ¬ is_error_status
        (status_code (snd (gh_post gh st (base +:+ "/releases") payload))) →
    let st' := fst (gh_post gh st (base +:+ "/releases") payload) in
    let created := snd (gh_post gh st (base +:+ "/releases") payload) in
    let found :=
      gh_get gh st' (base +:+ "/releases/tags/" +:+ tag_name payload) in
    ¬ is_error_status (status_code found) ∧ json found = json created.

(** ** Sample hosts and builds *)

(** A well-formed routine, as it stands in [release.sh]. *)
Definition routine : list string :=
  ["toc_to_type() {" +:+ nl; "  eval $2=retail" +:+ nl; "}" +:+ nl].

(** The same routine, its closing line lost. *)
Definition truncated_routine : list string :=
  ["toc_to_type() {" +:+ nl; "  eval $2=retail" +:+ nl].

Definition completed (code : Z) (out : string) : CompletedProcess :=
  {| returncode := code; stdout := out |}.

(** An interpreter that answers "classic" for 11506, "retail" for 100000
    and "cata" for any other interface number. *)
Definition sample_bash (script : list string) : CompletedProcess :=
  if bool_decide (script = harness routine 11506)
  then completed 0 ("classic" +:+ nl)
  else if bool_decide (script = harness routine 100000)
  then completed 0 ("retail" +:+ nl)
  else completed 0 ("cata" +:+ nl).

Definition host_with_bash : Host :=
  {| release_sh := Some routine; bash := Some sample_bash |}.

Definition host_without_bash : Host :=
  {| release_sh := Some routine; bash := None |}.

Definition host_truncated : Host :=
  {| release_sh := Some truncated_routine; bash := Some sample_bash |}.

Definition host_failing : Host :=
  {| release_sh := Some routine; bash := Some (fun _ => completed 1 "") |}.

Definition game_version (version : string) : GameVersion :=
  {| gameVersionName := version; gameVersionTypeId := 517 |}.

Definition build (file_id : Z) (release_type : Z) (versions : list string)
  : FileInfo :=
  {| id := file_id; fileName := "Addon-1.2.3.zip";
     releaseType := release_type; downloadUrl := "";
     sortableGameVersions := map game_version versions |}.

(** A source-hosting service for the examples: its state maps the lookup
    URL of each release to the JSON object of the release; a lookup
    answers 200 with the release or 404, a creation stores the release
    under the lookup URL of its tag and answers 201. *)
Definition release_object (url : string) : gmap string string :=
  {[ "upload_url" := url +:+ "/assets{?name,label}" ]}.

Definition reference_github : GitHub (gmap string (gmap string string)) :=
  {| gh_get := fun st url =>
       match st !! url with
       | Some release => {| status_code := 200; json := release |}
       | None => {| status_code := 404; json := ∅ |}
       end;
     gh_post := fun st url payload =>
       let key := url +:+ "/tags/" +:+ tag_name payload in
       (<[key := release_object key]> st,
        {| status_code := 201; json := release_object key |}) |}.

(** The service after a first publication of the tag ["v2026.11.04.10.00"]
    of the repository ["owner/addon"]. *)
Definition sample_tag : string := "v2026.11.04.10.00".

Definition sample_lookup : string :=
  "https://api.github.com/repos/owner/addon/releases/tags/v2026.11.04.10.00".

Definition published : gmap string (gmap string string) :=
  fst (fst (_get_or_create_release reference_github "owner/addon" sample_tag
              "notes" ∅)).

(** A service that answers 500 to every request. *)
Definition broken_github : GitHub unit :=
  {| gh_get := fun _ _ => {| status_code := 500; json := ∅ |};
     gh_post := fun st _ _ => (st, {| status_code := 500; json := ∅ |}) |}.

(** A mod descriptor: a release listed twice, a beta and an alpha, a
    release that the listing names last, and a listed id without file. *)
Definition sample_mod : Response ModData :=
  {| status_code := 200;
     json := {| latestFiles :=
                  Some [build 10 1 ["10.0.0"]; build 11 2 ["1.15.6"];
                        build 12 1 ["4.4.0"]; build 13 3 ["3.4.2"]];
                latestFilesIndexes :=
                  Some [ {| fileId := 12; gameVersion := "4.4.0" |};
                         {| fileId := 11; gameVersion := "1.15.6" |};
                         {| fileId := 10; gameVersion := "10.0.0" |};
                         {| fileId := 12; gameVersion := "4.4.1" |};
                         {| fileId := 99; gameVersion := "2.5.4" |} ] |} |}.

(** A mod-hosting service for the examples: every download is answered
    with bytes that name its URL, every changelog with one paragraph. *)
Definition sample_curseforge (descriptor : Response ModData) : CurseForge :=
  {| cf_mod := descriptor;
     cf_file := fun url =>
       {| status_code := 200; json := "bytes of " +:+ url |};
     cf_changelog := fun _ =>
       {| status_code := 200; json := Some "<p>fixes</p>" |} |}.

(** The reference service with uploads that are always accepted. *)
Definition reference_forge : Forge (gmap string (gmap string string)) :=
  {| forge_releases := reference_github;
     forge_upload := fun st _ => (st, 201) |}.

(** A build with its own download URL. *)
Definition build_at (file_id : Z) (url : string) (versions : list string)
  : FileInfo :=
  {| id := file_id; fileName := "Addon-1.2.3.zip"; releaseType := 1;
     downloadUrl := url;
     sortableGameVersions := map game_version versions |}.

(** A descriptor with two release builds of the same file name and the
    same flavor. *)
Definition twin_mod : Response ModData :=
  {| status_code := 200;
     json := {| latestFiles :=
                  Some [build_at 20 "cdn/20" ["4.4.0"];
                        build_at 21 "cdn/21" ["4.4.1"]];
                latestFilesIndexes :=
                  Some [ {| fileId := 20; gameVersion := "4.4.0" |};
                         {| fileId := 21; gameVersion := "4.4.1" |} ] |} |}.

(** A run on the sample descriptor, on a host without the interpreter. *)
Definition sample_run : RunResult (gmap string (gmap string string)) :=
  run host_without_bash (sample_curseforge sample_mod) reference_forge
    (fun html => html) (fun _ => "{}") "owner/addon" sample_tag "Addon" ∅
    ∅ ∅.

(** ** Facts on the effect monad *)

Lemma outcome_bind {A B} (m : M A) (f : A -> M B) :
  outcome (bind m f) = rbind (outcome m) (fun a => outcome (f a)).
Proof.
  destruct m as [log [e|a]]; simpl; [reflexivity|].
  destruct (f a); reflexivity.
Qed.

Lemma log_bind_ok {A B} (m : M A) (f : A -> M B) a :
  outcome m = ok a -> log_of (bind m f) = log_of m ++ log_of (f a).
Proof.
  destruct m as [log [e|a']]; simpl; intros H; [discriminate|].
  injection H as ->. destruct (f a); reflexivity.
Qed.

Lemma log_bind_throw {A B} (m : M A) (f : A -> M B) e :
  outcome m = throw e -> log_of (bind m f) = log_of m.
Proof.
  destruct m as [log [e'|a']]; simpl; intros H; [reflexivity|discriminate].
Qed.

Lemma outcome_lift {A} (r : result A) : outcome (lift r) = r.
Proof. reflexivity. Qed.

Lemma outcome_mmap {A B} (f : A -> M B) (l : list A) :
  outcome (mmap f l) = rmap (fun x => outcome (f x)) l.
Proof.
  induction l as [|x l IH]; simpl; [reflexivity|].
  rewrite outcome_bind. destruct (outcome (f x)); simpl; [reflexivity|].
  rewrite outcome_bind, IH.
  destruct (rmap _ l); reflexivity.
Qed.

Lemma outcome_try_except {A} (m : M A) e (handler : M A) :
  outcome (try_except m e handler)
  = match outcome m with
    | inl e' => if decide (e' = e) then outcome handler else inl e'
    | inr a => inr a
    end.
Proof.
  destruct m as [log [e'|a]]; simpl; [|reflexivity].
  destruct (decide (e' = e)); [|reflexivity].
  destruct handler; reflexivity.
Qed.

(** ** Facts on [rmap] *)

Lemma rmap_ok_all {A B} (f : A -> result B) (g : A -> B) (l : list A) :
  (∀ x, x ∈ l → f x = ok (g x)) → rmap f l = ok (map g l).
Proof.
  induction l as [|x l IH]; intros H; simpl; [reflexivity|].
  rewrite (H x) by left. simpl.
  rewrite IH; [reflexivity|]. intros y Hy. apply H. by right.
Qed.

Lemma rmap_throw_head {A B} (f : A -> result B) x l e :
  f x = throw e -> rmap f (x :: l) = throw e.
Proof. intros H. simpl. rewrite H. reflexivity. Qed.

Lemma rmap_throw_first {A B} (f : A -> result B) pre x post e :
  (∀ y, y ∈ pre → ∃ b, f y = ok b) → f x = throw e →
  rmap f (pre ++ x :: post) = throw e.
Proof.
  induction pre as [|y pre IH]; intros Hpre Hx; simpl.
  - rewrite Hx. reflexivity.
  - destruct (Hpre y) as [b Hb]; [left|]. rewrite Hb. simpl.
    rewrite IH; [reflexivity| |assumption].
    intros z Hz. apply Hpre. by right.
Qed.

(** ** Facts on the Python primitives *)

Lemma foldl_max_spec (l : list Z) (x : Z) :
  let m := foldl Z.max x l in
  (m = x ∨ m ∈ l) ∧ x <= m ∧ ∀ y, y ∈ l → y <= m.
Proof.
  revert x. induction l as [|a l IH]; intros x; simpl.
  - split; [by left|]. split; [lia|]. intros y Hy. inversion Hy.
  - destruct (IH (Z.max x a)) as (Hin & Hle & Hall).
    split; [|split].
    + destruct Hin as [Heq|Hin].
      * rewrite Heq. destruct (Z.max_spec x a) as [[_ ->]|[_ ->]];
          [right; left|by left].
      * right. by right.
    + lia.
    + intros y Hy. inversion Hy; subst; [lia|]. by apply Hall.
Qed.

Lemma max_spec (l : list Z) (m : Z) :
  max l = ok m → m ∈ l ∧ ∀ y, y ∈ l → y <= m.
Proof.
  destruct l as [|x l]; simpl; [discriminate|].
  intros [= <-]. destruct (foldl_max_spec l x) as (Hin & Hle & Hall).
  split.
  - destruct Hin as [->|Hin]; [left|by right].
  - intros y Hy. inversion Hy; subst; [assumption|]. by apply Hall.
Qed.

Lemma max_nonempty (l : list Z) : l ≠ [] → ∃ m, max l = ok m.
Proof. destruct l; [done|]. intros _. eexists. reflexivity. Qed.

Lemma pop_of_size_one (slugs : gset string) (k : M string) :
  outcome (if decide (size slugs = 1%nat) then lift (set_pop slugs) else k)
  = match elements slugs with
    | [s] => ok s
    | _ => outcome k
    end.
Proof.
  unfold size, set_size, set_pop. simpl.
  destruct (elements slugs) as [|x [|y l]]; simpl; reflexivity.
Qed.

(** ** Facts on the external classifier *)

Lemma external_eq (h : Host) (iv : Z) :
  external h iv
  = match release_sh h with
    | None => throw FileNotFoundError
    | Some lines =>
        rbind (extract_routine lines) (fun func_body =>
        match bash h with
        | None => throw FileNotFoundError
        | Some interp =>
            let r := interp (harness func_body iv) in
            if negb (returncode r =? 0) then throw CalledProcessError
            else ok (strip (stdout r))
        end)
    end.
Proof.
  unfold external, _bash_toc_to_type, run_checked.
  destruct (release_sh h) as [lines|]; simpl; [|reflexivity].
  destruct (extract_routine lines) as [e|fb]; simpl; [reflexivity|].
  destruct (bash h) as [interp|]; simpl; [|reflexivity].
  destruct (negb _); reflexivity.
Qed.

(** [FileNotFoundError] does not depend on the interface number. *)
Lemma external_not_found_uniform (h : Host) (iv iv' : Z) :
  external h iv = throw FileNotFoundError →
  external h iv' = throw FileNotFoundError.
Proof.
  rewrite !external_eq.
  destruct (release_sh h) as [lines|]; [|done].
  destruct (extract_routine lines) as [e|fb]; simpl; [done|].
  destruct (bash h) as [interp|]; [|done].
  destruct (negb _); discriminate.
Qed.

(** ** The resolver refines the policy of the specification *)

#[local] Arguments bind {A B} m f : simpl never.
#[local] Arguments lift {A} r : simpl never.

Lemma pick_slug_external (h : Host) (info : FileInfo) ivals (c : Z -> string) :
  interfaces info = ok ivals →
  (∀ iv, iv ∈ ivals → external h iv = ok (c iv)) →
  outcome (_pick_slug h info) = resolve_with c ivals.
Proof.
  intros Hiv Hext. unfold _pick_slug, interfaces in *.
  rewrite outcome_bind, outcome_lift, Hiv. simpl rbind.
  rewrite outcome_bind, outcome_try_except, outcome_bind, outcome_mmap.
  fold (external h). rewrite (rmap_ok_all _ c) by assumption.
  simpl. unfold resolve_with.
  destruct (decide ("retail" ∈ _)); [reflexivity|].
  rewrite pop_of_size_one.
  destruct (elements _) as [|s [|s' l]]; try reflexivity.
  all: rewrite outcome_bind, outcome_lift.
  all: destruct (max ivals) as [e|m] eqn:Hm; simpl; [reflexivity|].
  all: apply max_spec in Hm as [Hm _]; apply (Hext m Hm).
Qed.

Lemma pick_slug_fallback (h : Host) (info : FileInfo) ivals :
  interfaces info = ok ivals →
  (∃ iv, iv ∈ ivals ∧ external h iv = throw FileNotFoundError) →
  outcome (_pick_slug h info) = resolve_with toc_to_type ivals.
Proof.
  intros Hiv (iv & Hin & Hnf). unfold _pick_slug, interfaces in *.
  rewrite outcome_bind, outcome_lift, Hiv. simpl rbind.
  rewrite outcome_bind, outcome_try_except, outcome_bind, outcome_mmap.
  fold (external h).
  destruct ivals as [|iv0 rest]; [inversion Hin|].
  rewrite (rmap_throw_head _ _ _ FileNotFoundError)
    by (eapply external_not_found_uniform; eassumption).
  simpl. unfold resolve_with.
  destruct (decide ("retail" ∈ _)); [reflexivity|].
  rewrite pop_of_size_one.
  destruct (elements _) as [|s [|s' l]]; reflexivity.
Qed.

Lemma pick_slug_refines (h : Host) (info : FileInfo) ivals (c : Z -> string) :
  interfaces info = ok ivals → classified_by h ivals c →
  outcome (_pick_slug h info) = resolve_with c ivals.
Proof.
  intros Hiv [Hext|[Hnf Hc]].
  - by apply pick_slug_external.
  - rewrite (pick_slug_fallback h info ivals Hiv Hnf).
    unfold resolve_with. rewrite (map_ext c toc_to_type) by assumption.
    destruct (decide _); [reflexivity|].
    destruct (elements _) as [|s [|s' l]]; try reflexivity.
    all: destruct (max ivals); simpl; rewrite ?Hc; reflexivity.
Qed.

(** ** Facts on the policy *)

Lemma slug_of_interface (c : Z -> string) (ivals : list Z) (iv : Z) :
  iv ∈ ivals → c iv ∈ (list_to_set (map c ivals) : gset string).
Proof.
  intros Hin. apply elem_of_list_to_set, list_elem_of_fmap. by exists iv.
Qed.

Lemma interface_of_slug (c : Z -> string) (ivals : list Z) (s : string) :
  s ∈ (list_to_set (map c ivals) : gset string) → ∃ iv, iv ∈ ivals ∧ c iv = s.
Proof.
  intros Hin. apply elem_of_list_to_set, list_elem_of_fmap in Hin.
  destruct Hin as (iv & -> & Hin). by exists iv.
Qed.

Lemma resolve_with_retail (c : Z -> string) (ivals : list Z) :
  (∃ iv, iv ∈ ivals ∧ c iv = "retail") → resolve_with c ivals = ok "".
Proof.
  intros (iv & Hin & Hc). unfold resolve_with.
  destruct (decide _) as [_|Hn]; [reflexivity|].
  exfalso. apply Hn. rewrite <- Hc. by apply slug_of_interface.
Qed.

Lemma resolve_with_single (c : Z -> string) (ivals : list Z) (s : string) :
  ivals ≠ [] → (∀ iv, iv ∈ ivals → c iv = s) → s ≠ "retail" →
  resolve_with c ivals = ok s.
Proof.
  intros Hne Hall Hs. unfold resolve_with.
  assert ((list_to_set (map c ivals) : gset string) = {[s]}) as ->.
  { apply set_eq. intros x. rewrite elem_of_singleton. split.
    - intros Hx. apply interface_of_slug in Hx as (iv & Hin & <-).
      by apply Hall.
    - intros ->. destruct ivals as [|iv l]; [done|].
      rewrite <- (Hall iv) by left. apply slug_of_interface. left. }
  destruct (decide _) as [Hin|_].
  - apply elem_of_singleton in Hin. congruence.
  - rewrite elements_singleton. reflexivity.
Qed.

Lemma resolve_with_several (c : Z -> string) (ivals : list Z) :
  (∀ iv, iv ∈ ivals → c iv ≠ "retail") →
  (∃ iv1 iv2, iv1 ∈ ivals ∧ iv2 ∈ ivals ∧ c iv1 ≠ c iv2) →
  ∃ m, max ivals = ok m ∧ resolve_with c ivals = ok (c m).
Proof.
  intros Hnr (iv1 & iv2 & H1 & H2 & Hdiff). unfold resolve_with.
  destruct (max_nonempty ivals) as [m Hm]; [by destruct ivals; inversion H1|].
  exists m. split; [assumption|].
  destruct (decide _) as [Hin|_].
  { apply interface_of_slug in Hin as (iv & Hin & Hc). by destruct (Hnr iv). }
  pose proof (slug_of_interface c ivals iv1 H1) as E1.
  pose proof (slug_of_interface c ivals iv2 H2) as E2.
  apply elem_of_elements in E1, E2.
  destruct (elements _) as [|s [|s' l]].
  - inversion E1.
  - apply list_elem_of_singleton in E1, E2. congruence.
  - rewrite Hm. reflexivity.
Qed.

Lemma toc_to_type_range (z : Z) :
  toc_to_type z ∈ ["classic"; "bcc"; "wrath"; "cata"; "retail"].
Proof.
  unfold toc_to_type. rewrite !elem_of_cons.
  repeat (destruct (_ : bool); [tauto|]). tauto.
Qed.

Lemma resolve_with_builtin_range (ivals : list Z) :
  ivals ≠ [] →
  ∃ s, resolve_with toc_to_type ivals = ok s
       ∧ s ∈ [""; "classic"; "bcc"; "wrath"; "cata"].
Proof.
  intros Hne.
  assert (∀ iv, iv ∈ ivals → toc_to_type iv ≠ "retail" →
                toc_to_type iv ∈ [""; "classic"; "bcc"; "wrath"; "cata"])
    as Hrange.
  { intros iv _ Hnr. pose proof (toc_to_type_range iv) as Hr.
    rewrite !elem_of_cons, elem_of_nil in Hr. rewrite !elem_of_cons. tauto. }
  unfold resolve_with.
  destruct (decide _) as [_|Hnr]; [exists ""; split; [reflexivity|left]|].
  assert (∀ iv, iv ∈ ivals → toc_to_type iv ≠ "retail") as Hno.
  { intros iv Hin Heq. apply Hnr. rewrite <- Heq. by apply slug_of_interface. }
  destruct (max_nonempty ivals Hne) as [m Hm].
  pose proof (max_spec _ _ Hm) as [Hmin _].
  destruct (elements _) as [|s [|s' l]] eqn:He.
  - exists (toc_to_type m). rewrite Hm. split; [reflexivity|]. by auto.
  - exists s. split; [reflexivity|].
    assert (s ∈ (list_to_set (map toc_to_type ivals) : gset string)) as Hs.
    { apply elem_of_elements. rewrite He. left. }
    apply interface_of_slug in Hs as (iv & Hin & <-). by auto.
  - exists (toc_to_type m). rewrite Hm. split; [reflexivity|]. by auto.
Qed.

(** ** The resolver: retail, single flavor, several flavors *)

(** C3. If one of the game versions of a build is classified "retail" by
    the classifier the resolution works with, [_pick_slug] returns the
    empty slug, whatever the other versions are classified as. *)
Theorem retail_overrides (h : Host) (info : FileInfo) (ivals : list Z)
    (c : Z -> string) :
  interfaces info = ok ivals →
  classified_by h ivals c →
  (∃ iv, iv ∈ ivals ∧ c iv = "retail") →
  outcome (_pick_slug h info) = ok "".
Proof.
  intros Hiv Hc Hretail.
  rewrite (pick_slug_refines h info ivals c Hiv Hc).
  by apply resolve_with_retail.
Qed.

Lemma retail_overrides_witness :
  outcome (_pick_slug host_without_bash (build 1 1 ["1.15.6"; "10.0.0"]))
  = ok "".
Proof.
  apply (retail_overrides _ _ [11506; 100000] toc_to_type).
  - reflexivity.
  - right. split; [|reflexivity].
    exists 11506. split; [left|reflexivity].
  - exists 100000. split; [right; left|reflexivity].
Defined.

(** C4. When no game version of a build is classified "retail": if two
    versions are classified differently, [_pick_slug] returns the
    classification of the maximum interface number of the build; if all
    versions are classified as one slug, it returns that slug. *)
Theorem non_retail_resolution (h : Host) (info : FileInfo) (ivals : list Z)
    (c : Z -> string) :
  interfaces info = ok ivals →
  classified_by h ivals c →
  (∀ iv, iv ∈ ivals → c iv ≠ "retail") →
  ((∃ iv1 iv2, iv1 ∈ ivals ∧ iv2 ∈ ivals ∧ c iv1 ≠ c iv2) →
   ∃ m, m ∈ ivals ∧ (∀ iv, iv ∈ ivals → iv <= m)
        ∧ outcome (_pick_slug h info) = ok (c m))
  ∧ (∀ s, ivals ≠ [] → (∀ iv, iv ∈ ivals → c iv = s) →
          outcome (_pick_slug h info) = ok s).
Proof.
  intros Hiv Hc Hnr.
  rewrite (pick_slug_refines h info ivals c Hiv Hc). split.
  - intros Hdiff.
    destruct (resolve_with_several c ivals Hnr Hdiff) as (m & Hm & Hres).
    destruct (max_spec _ _ Hm) as [Hin Hmax].
    exists m. auto.
  - intros s Hne Hall. apply resolve_with_single; try assumption.
    destruct ivals as [|iv l]; [done|].
    rewrite <- (Hall iv) by left. apply Hnr. left.
Qed.

Lemma non_retail_resolution_witness :
  (∃ m, m ∈ [11506; 40400] ∧ (∀ iv, iv ∈ [11506; 40400] → iv <= m)
        ∧ outcome (_pick_slug host_with_bash (build 1 1 ["1.15.6"; "4.4.0"]))
          = ok (if decide (m = 11506) then "classic" else "cata"))
  ∧ outcome (_pick_slug host_with_bash (build 1 1 ["4.4.0"; "4.4.1"]))
    = ok "cata".
Proof.
  split.
  - apply (non_retail_resolution host_with_bash _ [11506; 40400]
             (fun iv => if decide (iv = 11506) then "classic" else "cata")).
    + reflexivity.
    + left. intros iv Hin. rewrite !elem_of_cons, elem_of_nil in Hin.
      destruct Hin as [->|[->|[]]]; reflexivity.
    + intros iv _. by destruct (decide _).
    + exists 11506, 40400. split; [left|]. split; [right; left|]. done.
  - apply (non_retail_resolution host_with_bash _ [40400; 40401]
             (fun _ => "cata")).
    + reflexivity.
    + left. intros iv Hin. rewrite !elem_of_cons, elem_of_nil in Hin.
      destruct Hin as [->|[->|[]]]; reflexivity.
    + done.
    + done.
    + done.
Defined.

Lemma builtin_range_of_fallback (h : Host) (info : FileInfo)
    (ivals : list Z) :
  interfaces info = ok ivals →
  (∃ iv, iv ∈ ivals ∧ external h iv = throw FileNotFoundError) →
  ∃ s, outcome (_pick_slug h info) = ok s
       ∧ s ∈ [""; "classic"; "bcc"; "wrath"; "cata"].
Proof.
  intros Hiv Hnf. rewrite (pick_slug_fallback h info ivals Hiv Hnf).
  apply resolve_with_builtin_range.
  destruct Hnf as (iv & Hin & _). by destruct ivals; inversion Hin.
Qed.

(** C10. When a resolution works with the built-in classifier (a call of
    the external one raised [FileNotFoundError]), [_pick_slug] returns a
    slug, and it is the empty slug, "classic", "bcc", "wrath" or "cata":
    never "retail". *)
Theorem builtin_never_returns_retail (h : Host) (info : FileInfo)
    (ivals : list Z) :
  interfaces info = ok ivals →
  (∃ iv, iv ∈ ivals ∧ external h iv = throw FileNotFoundError) →
  ∃ s, outcome (_pick_slug h info) = ok s
       ∧ s ∈ [""; "classic"; "bcc"; "wrath"; "cata"]
       ∧ s ≠ "retail".
Proof.
  intros Hiv Hnf.
  destruct (builtin_range_of_fallback h info ivals Hiv Hnf) as (s & Hs & Hin).
  exists s. split; [assumption|]. split; [assumption|].
  intros ->. rewrite !elem_of_cons, elem_of_nil in Hin.
  destruct Hin as [?|[?|[?|[?|[?|[]]]]]]; discriminate.
Qed.

Lemma builtin_never_returns_retail_witness :
  ∃ s, outcome (_pick_slug host_without_bash (build 1 1 ["1.15.6"; "4.4.0"]))
       = ok s
       ∧ s ∈ [""; "classic"; "bcc"; "wrath"; "cata"]
       ∧ s ≠ "retail".
Proof.
  apply (builtin_never_returns_retail _ _ [11506; 40400]).
  - reflexivity.
  - exists 11506. split; [left|reflexivity].
Defined.

(** ** The resolver: failures of the external classifier *)

(** The external classifier fails in three ways only. *)
Lemma external_failures (h : Host) (iv : Z) (e : exn) :
  external h iv = throw e →
  e = FileNotFoundError ∨ e = FunctionExtractionError
  ∨ e = CalledProcessError.
Proof.
  rewrite external_eq. unfold extract_routine.
  destruct (release_sh h) as [lines|]; [|intros [= <-]; tauto].
  destruct (scan lines false 0 []) as [[capture brace_count] func_body].
  destruct (negb (brace_count =? 0)); simpl; [intros [= <-]; tauto|].
  destruct (bash h) as [interp|]; [|intros [= <-]; tauto].
  destruct (negb _); [intros [= <-]; tauto|discriminate].
Qed.

(** C1, as the code has it. Of the failures of the external classifier,
    [FileNotFoundError] alone (the interpreter, or the local copy of the
    script, is not on the host) is recovered: the resolution then works
    with the built-in classifier and returns a slug. The first failure of
    another kind (an extraction error, a non-zero exit of the interpreter)
    is not recovered: [_pick_slug] raises it. *)
Theorem external_failure_handling (h : Host) (info : FileInfo)
    (ivals : list Z) :
  interfaces info = ok ivals →
  ((∃ iv, iv ∈ ivals ∧ external h iv = throw FileNotFoundError) →
   outcome (_pick_slug h info) = resolve_with toc_to_type ivals
   ∧ ∃ s, outcome (_pick_slug h info) = ok s)
  ∧ (∀ pre iv post e,
       ivals = pre ++ iv :: post →
       (∀ y, y ∈ pre → ∃ s, external h y = ok s) →
       external h iv = throw e →
       e ≠ FileNotFoundError →
       (e = FunctionExtractionError ∨ e = CalledProcessError)
       ∧ outcome (_pick_slug h info) = throw e).
Proof.
  intros Hiv. split.
  - intros Hnf. split; [by apply pick_slug_fallback|].
    destruct (builtin_range_of_fallback h info ivals Hiv Hnf) as (s & Hs & _).
    by exists s.
  - intros pre iv post e -> Hpre Hfail He. split.
    { destruct (external_failures h iv e Hfail) as [?|?]; tauto. }
    unfold _pick_slug, interfaces in *.
    rewrite outcome_bind, outcome_lift, Hiv. simpl rbind.
    rewrite outcome_bind, outcome_try_except, outcome_bind, outcome_mmap.
    fold (external h).
    rewrite (rmap_throw_first _ pre iv post e Hpre Hfail). simpl.
    destruct (decide (e = FileNotFoundError)); [contradiction|reflexivity].
Qed.

Lemma external_failure_handling_witness :
  (outcome (_pick_slug host_without_bash (build 1 1 ["1.15.6"; "4.4.0"]))
   = resolve_with toc_to_type [11506; 40400]
   ∧ ∃ s, outcome (_pick_slug host_without_bash
                     (build 1 1 ["1.15.6"; "4.4.0"])) = ok s)
  ∧ (CalledProcessError = FunctionExtractionError
     ∨ CalledProcessError = CalledProcessError)
    ∧ outcome (_pick_slug host_failing (build 1 1 ["1.15.6"; "4.4.0"]))
      = throw CalledProcessError.
Proof.
  split.
  - apply (external_failure_handling host_without_bash _ [11506; 40400]).
    + reflexivity.
    + exists 11506. split; [left|reflexivity].
  - apply (proj2 (external_failure_handling host_failing
                    (build 1 1 ["1.15.6"; "4.4.0"]) [11506; 40400] eq_refl)
             [] 11506 [40400] CalledProcessError).
    + reflexivity.
    + intros y Hy. inversion Hy.
    + reflexivity.
    + discriminate.
Defined.

(** C1 as stated fails: with a routine whose braces do not balance the
    external classifier raises the extraction error, and with an
    interpreter that exits with status 1 it raises the execution error;
    both come out of [_pick_slug], no slug is returned. *)
Lemma extraction_and_exit_errors_propagate :
  (external host_truncated 11506 = throw FunctionExtractionError
   ∧ outcome (_pick_slug host_truncated (build 1 1 ["1.15.6"]))
     = throw FunctionExtractionError)
  ∧ (external host_failing 11506 = throw CalledProcessError
     ∧ outcome (_pick_slug host_failing (build 1 1 ["1.15.6"]))
       = throw CalledProcessError).
Proof. repeat split; reflexivity. Qed.

(** ** The resolver: how far a fallback reaches *)

Lemma log_mmap_throw_head {A B} (f : A -> M B) x l e :
  outcome (f x) = throw e → mmap f (x :: l) = (log_of (f x), throw e).
Proof.
  intros H. simpl. destruct (f x) as [log [e'|b]]; simpl in *; [|discriminate].
  injection H as ->. reflexivity.
Qed.

Lemma resolve_all_cons_ok (h : Host) (info : FileInfo) files s :
  outcome (_pick_slug h info) = ok s →
  log_of (resolve_all h (info :: files))
  = log_of (_pick_slug h info) ++ log_of (resolve_all h files).
Proof.
  intros Hs. unfold resolve_all. simpl mmap.
  rewrite (log_bind_ok _ _ s Hs). f_equal.
  destruct (mmap (_pick_slug h) files) as [log [e|l]]; simpl;
    by rewrite ?app_nil_r.
Qed.

Lemma try_except_caught {A} (m : M A) e (handler : M A) :
  outcome m = throw e →
  try_except m e handler = (log_of m ++ log_of handler, outcome handler).
Proof.
  destruct m as [log [e'|a]]; simpl; intros H; [|discriminate].
  injection H as ->. destruct (decide (e = e)); [|done].
  destruct handler; reflexivity.
Qed.

Lemma pick_slug_fallback_log (h : Host) (info : FileInfo) iv0 rest :
  interfaces info = ok (iv0 :: rest) →
  external h iv0 = throw FileNotFoundError →
  log_of (_pick_slug h info) = log_of (_bash_toc_to_type h iv0).
Proof.
  intros Hiv Hnf. unfold _pick_slug, interfaces in *.
  rewrite (log_bind_ok _ _ (iv0 :: rest)) by exact Hiv.
  change (log_of (lift ?r)) with (@nil Event). rewrite app_nil_l.
  match goal with |- context [try_except ?m ?e ?k] =>
    assert (try_except m e k
            = (log_of (_bash_toc_to_type h iv0),
               ok (true, list_to_set (map toc_to_type (iv0 :: rest))))) as HT
  end.
  { rewrite try_except_caught.
    - rewrite (log_mmap_throw_head _ _ _ FileNotFoundError Hnf).
      unfold bind, ret. cbn [log_of outcome fst snd]. by rewrite app_nil_r.
    - rewrite (log_mmap_throw_head _ _ _ FileNotFoundError Hnf). reflexivity. }
  rewrite HT. erewrite log_bind_ok by reflexivity.
  cbn [log_of outcome fst snd].
  destruct (decide ("retail" ∈ _)); [by rewrite app_nil_r|].
  destruct (decide (size _ = 1%nat)); [by rewrite app_nil_r|].
  destruct (max (iv0 :: rest)) as [e|m] eqn:Hm; [discriminate|].
  unfold bind, lift, ret. by rewrite app_nil_r.
Qed.

Lemma external_log_head (h : Host) (iv : Z) :
  ∃ tail, log_of (_bash_toc_to_type h iv) = OpenReleaseSh :: tail.
Proof.
  unfold _bash_toc_to_type. unfold bind at 1. unfold tell, ok.
  match goal with |- context [let '(_, _) := ?k in _] => destruct k as [l r] end.
  by exists l.
Qed.

(** C2, as the code has it. The variable [fallback] belongs to one call of
    [_pick_slug]. Within a resolution whose first external call raises
    [FileNotFoundError], the host is not accessed again after that call
    and the slug is the one the policy gives with the built-in classifier,
    the tie-break included. Nothing is kept for the builds that follow:
    their resolutions are run as they stand, and each of them that has a
    game version starts with a call of the external classifier. *)
Theorem fallback_is_per_resolution (h : Host) (info : FileInfo) (iv0 : Z)
    (rest : list Z) :
  interfaces info = ok (iv0 :: rest) →
  external h iv0 = throw FileNotFoundError →
  log_of (_pick_slug h info) = log_of (_bash_toc_to_type h iv0)
  ∧ outcome (_pick_slug h info) = resolve_with toc_to_type (iv0 :: rest)
  ∧ (∀ files,
       log_of (resolve_all h (info :: files))
       = log_of (_pick_slug h info) ++ log_of (resolve_all h files))
  ∧ (∀ info' iv' rest',
       interfaces info' = ok (iv' :: rest') →
       ∃ tail, log_of (_pick_slug h info') = OpenReleaseSh :: tail).
Proof.
  intros Hiv Hnf.
  assert (∃ iv, iv ∈ iv0 :: rest ∧ external h iv = throw FileNotFoundError)
    as Hex by (exists iv0; split; [left|assumption]).
  split; [by eapply pick_slug_fallback_log|].
  split; [by apply pick_slug_fallback|].
  split.
  - intros files.
    destruct (builtin_range_of_fallback h info _ Hiv Hex) as (s & Hs & _).
    by apply (resolve_all_cons_ok h info files s).
  - intros info' iv' rest' Hiv'.
    rewrite (pick_slug_fallback_log h info' iv' rest' Hiv')
      by (eapply external_not_found_uniform; eassumption).
    apply external_log_head.
Qed.

Lemma fallback_is_per_resolution_witness :
  log_of (_pick_slug host_without_bash (build 1 1 ["1.15.6"; "4.4.0"]))
  = log_of (_bash_toc_to_type host_without_bash 11506)
  ∧ outcome (_pick_slug host_without_bash (build 1 1 ["1.15.6"; "4.4.0"]))
    = resolve_with toc_to_type [11506; 40400]
  ∧ (∀ files,
       log_of (resolve_all host_without_bash
                 (build 1 1 ["1.15.6"; "4.4.0"] :: files))
       = log_of (_pick_slug host_without_bash (build 1 1 ["1.15.6"; "4.4.0"]))
         ++ log_of (resolve_all host_without_bash files))
  ∧ (∀ info' iv' rest',
       interfaces info' = ok (iv' :: rest') →
       ∃ tail, log_of (_pick_slug host_without_bash info')
               = OpenReleaseSh :: tail).
Proof.
  apply (fallback_is_per_resolution host_without_bash _ 11506 [40400]);
    reflexivity.
Defined.

(** C2 as stated fails: on a host without the interpreter the resolution of
    a first build falls back to the built-in classifier, and the resolution
    of the build that follows it calls the external classifier again (it
    opens [release.sh] and runs the script for 30402). *)
Lemma fallback_not_remembered :
  external host_without_bash 11506 = throw FileNotFoundError
  ∧ outcome (resolve_all host_without_bash
               [build 1 1 ["1.15.6"; "4.4.0"]; build 2 1 ["3.4.2"]])
    = ok ["cata"; "wrath"]
  ∧ log_of (resolve_all host_without_bash
              [build 1 1 ["1.15.6"; "4.4.0"]; build 2 1 ["3.4.2"]])
    = log_of (_pick_slug host_without_bash (build 1 1 ["1.15.6"; "4.4.0"]))
      ++ [OpenReleaseSh; RunBash (harness routine 30402)].
Proof. repeat split; reflexivity. Qed.

(** ** Interface numbers *)

Lemma rmap_length {A B} (f : A -> result B) (l : list A) (ys : list B) :
  rmap f l = ok ys → length ys = length l.
Proof.
  revert ys. induction l as [|x l IH]; intros ys; simpl.
  - intros [= <-]. reflexivity.
  - destruct (f x) as [e|y]; simpl; [discriminate|].
    destruct (rmap f l) as [e|ys']; simpl; [discriminate|].
    intros [= <-]. simpl. f_equal. by apply IH.
Qed.

(** C5. For a version string whose dot-separated components are all
    numeric ([int] accepts them) and are at least two, the interface number
    is [major * 10000 + minor * 100 + patch], with [patch] 0 when there is
    no third component, and the resolver and the manifest builder compute
    the same number. *)
Theorem interface_number_formula (gv : GameVersion) (major minor : Z)
    (more : list Z) :
  rmap int (split "." (gameVersionName gv)) = ok (major :: minor :: more) →
  pick_interface gv = ok (major * 10000 + minor * 100 + hd 0 more)
  ∧ manifest_interface gv = ok (major * 10000 + minor * 100 + hd 0 more).
Proof.
  intros Hparts. unfold pick_interface, manifest_interface. rewrite Hparts.
  pose proof (rmap_length _ _ _ Hparts) as Hlen.
  destruct (split "." (gameVersionName gv)) as [|p0 [|p1 ps]];
    [discriminate..|].
  cbn [rmap] in Hparts. unfold index. cbn [lookup list_lookup rbind ok].
  destruct (int p0) as [e|z0]; cbn [rbind] in Hparts |- *; [discriminate|].
  destruct (int p1) as [e|z1]; cbn [rbind] in Hparts |- *; [discriminate|].
  destruct ps as [|p2 ps]; cbn [rmap rbind ok] in Hparts.
  - injection Hparts as <- <- <-. split; reflexivity.
  - destruct (int p2) as [e|z2] eqn:H2; cbn [rbind] in Hparts; [discriminate|].
    destruct (rmap int ps) as [e|zs]; cbn [rbind ok] in Hparts;
      [discriminate|].
    injection Hparts as <- <- <-.
    assert ((2 <? Z.of_nat (length (p0 :: p1 :: p2 :: ps))) = true) as ->
      by (apply Z.ltb_lt; simpl length; lia).
    assert ((2 <? Z.of_nat (length (z0 :: z1 :: z2 :: zs))) = true) as ->
      by (apply Z.ltb_lt; simpl length; lia).
    cbn [lookup list_lookup rbind ok]. rewrite H2. split; reflexivity.
Qed.

Lemma interface_number_formula_witness :
  pick_interface (game_version "4.4.0") = ok (4 * 10000 + 4 * 100 + 0)
  ∧ manifest_interface (game_version "4.4.0") = ok (4 * 10000 + 4 * 100 + 0).
Proof.
  apply (interface_number_formula (game_version "4.4.0") 4 4 [0]).
  reflexivity.
Defined.

Example interface_number_examples :
  map pick_interface (map game_version ["4.4.0"; "1.15.6"; "2.5"])
  = [ok 40400; ok 11506; ok 20500]
  ∧ map manifest_interface (map game_version ["4.4.0"; "1.15.6"; "2.5"])
    = [ok 40400; ok 11506; ok 20500].
Proof. split; reflexivity. Qed.

(** The two computations differ only outside the claim: the resolver does
    not convert a fourth component, the manifest builder does. *)
Example interface_number_fourth_component :
  pick_interface (game_version "1.15.6.x") = ok 11506
  ∧ manifest_interface (game_version "1.15.6.x") = throw ValueError.
Proof. split; reflexivity. Qed.

(** ** The built-in classifier *)

Lemma startswith_spec (p s : string) :
  startswith p s = true ↔ ∃ r, s = p +:+ r.
Proof.
  unfold startswith. revert s. induction p as [|a p IH]; intros s.
  - split; [intros _; by exists s|by destruct s].
  - destruct s as [|b s]; [split; [discriminate|intros [r [=]]]|].
    cbn [String.prefix]. destruct (ascii_dec a b) as [->|Hne].
    + split.
      * intros H. apply IH in H as [r ->]. by exists r.
      * intros [r [= ->]]. apply IH. by exists r.
    + split; [discriminate|]. intros [r [= <- _]]. contradiction.
Qed.

Lemma startswith_disjoint (p q s : string) (a b : ascii) :
  a ≠ b → startswith (String a p) s = true → startswith (String b q) s = false.
Proof.
  unfold startswith. intros Hne. destruct s as [|c s]; simpl; [discriminate|].
  destruct (ascii_dec a c) as [->|]; [|discriminate].
  intros _. destruct (ascii_dec b c) as [->|]; [contradiction|reflexivity].
Qed.

(** C6. [toc_to_type] is a function of the decimal representation [str z]
    of the interface number: "classic" when it begins with "11" and has
    exactly five characters, "bcc" when it begins with "20", "wrath" with
    "30", "cata" with "40", and "retail" in every other case. *)
Theorem toc_to_type_bands (z : Z) :
  (((∃ r, str z = "11" +:+ r) ∧ String.length (str z) = 5%nat) →
   toc_to_type z = "classic")
  ∧ ((∃ r, str z = "20" +:+ r) → toc_to_type z = "bcc")
  ∧ ((∃ r, str z = "30" +:+ r) → toc_to_type z = "wrath")
  ∧ ((∃ r, str z = "40" +:+ r) → toc_to_type z = "cata")
  ∧ (¬ ((∃ r, str z = "11" +:+ r) ∧ String.length (str z) = 5%nat) →
     ¬ (∃ r, str z = "20" +:+ r) → ¬ (∃ r, str z = "30" +:+ r) →
     ¬ (∃ r, str z = "40" +:+ r) → toc_to_type z = "retail")
  ∧ map toc_to_type [40402; 11506; 20504; 30402; 90205]
    = ["cata"; "classic"; "bcc"; "wrath"; "retail"].
Proof.
  unfold toc_to_type, len. rewrite <- !startswith_spec.
  repeat split.
  - intros [-> Hlen]. rewrite Hlen. reflexivity.
  - intros H. rewrite (startswith_disjoint "0" "1" _ "2" "1") by done.
    by rewrite H.
  - intros H. rewrite (startswith_disjoint "0" "1" _ "3" "1") by done.
    rewrite (startswith_disjoint "0" "0" _ "3" "2") by done.
    by rewrite H.
  - intros H. rewrite (startswith_disjoint "0" "1" _ "4" "1") by done.
    rewrite (startswith_disjoint "0" "0" _ "4" "2") by done.
    rewrite (startswith_disjoint "0" "0" _ "4" "3") by done.
    by rewrite H.
  - intros H11 H20 H30 H40.
    destruct (startswith "20" _); [by destruct H20|].
    destruct (startswith "30" _); [by destruct H30|].
    destruct (startswith "40" _); [by destruct H40|].
    destruct (startswith "11" _); [|reflexivity].
    destruct (Z.eqb_spec (Z.of_nat (String.length (str z))) 5) as [E|E];
      [|reflexivity].
    destruct H11. split; [reflexivity|lia].
Qed.

Lemma toc_to_type_bands_witness :
  toc_to_type 11506 = "classic" ∧ toc_to_type 20504 = "bcc"
  ∧ toc_to_type 110002 = "retail".
Proof.
  split; [|split].
  - apply (toc_to_type_bands 11506). split; [by exists "506"|reflexivity].
  - apply (toc_to_type_bands 20504). by exists "504".
  - apply (toc_to_type_bands 110002).
    + intros [_ H]. discriminate H.
    + intros [r H]. discriminate H.
    + intros [r H]. discriminate H.
    + intros [r H]. discriminate H.
Defined.

(** The band of "classic" in numbers: the five-digit numbers that begin
    with 11. *)
Lemma classic_band_sound (z : Z) :
  11000 <= z <= 11999 → toc_to_type z = "classic".
Proof.
  intros Hz.
  assert (forallb (fun k => String.eqb (toc_to_type (11000 + Z.of_nat k))
                                       "classic")
            (seq 0 1000) = true) as Hall by (vm_compute; reflexivity).
  rewrite forallb_forall in Hall.
  specialize (Hall (Z.to_nat (z - 11000))).
  rewrite Z2Nat.id in Hall by lia.
  replace (11000 + (z - 11000)) with z in Hall by lia.
  apply String.eqb_eq, Hall, in_seq. lia.
Qed.

Ltac next_digit d Hp Hl :=
  destruct d as [|d|d|d|d|d|d|d|d|d|d]; cbn in Hp, Hl; try discriminate.

Lemma classic_band_complete (z : Z) :
  toc_to_type z = "classic" → 11000 <= z <= 11999.
Proof.
  unfold toc_to_type, len, startswith, str.
  destruct (String.prefix "11" _) eqn:Hp; simpl.
  2:{ intros H.
      repeat (destruct (String.prefix _ (NilZero.string_of_int _)) in H;
              [discriminate H|]).
      discriminate H. }
  destruct (Z.eqb_spec
              (Z.of_nat (String.length (NilZero.string_of_int (Z.to_int z))))
              5) as [Hl|Hl].
  2:{ intros H.
      repeat (destruct (String.prefix _ (NilZero.string_of_int _)) in H;
              [discriminate H|]).
      discriminate H. }
  intros _. apply (f_equal Z.to_nat) in Hl. rewrite Nat2Z.id in Hl.
  change (Z.to_nat 5) with 5%nat in Hl.
  rewrite <- (of_to z). destruct (Z.to_int z) as [d|d]; [|discriminate].
  unfold NilZero.string_of_int, NilZero.string_of_uint in *.
  next_digit d Hp Hl. next_digit d Hp Hl.
  next_digit d Hp Hl; next_digit d Hp Hl; next_digit d Hp Hl;
    next_digit d Hp Hl; vm_compute; split; discriminate.
Qed.

(** X19. [toc_to_type] gives "classic" exactly on the numbers from 11000
    to 11999. *)
Lemma classic_band (z : Z) :
  toc_to_type z = "classic" ↔ 11000 <= z <= 11999.
Proof. split; [apply classic_band_complete|apply classic_band_sound]. Qed.

(** ** Extraction of the routine *)

Lemma scan_no_opening (lines : list string) (bc : Z) (fb : list string) :
  no_opening lines → scan lines false bc fb = (false, bc, fb).
Proof.
  induction 1 as [|line lines Hline _ IH]; simpl; [reflexivity|].
  by rewrite Hline.
Qed.

Lemma scan_to_opening (pre : list string) line post bc fb :
  no_opening pre → match_opening line = true →
  scan (pre ++ line :: post) false bc fb
  = scan post true (bc + 1) (fb ++ [line]).
Proof.
  induction 1 as [|l pre Hl _ IH]; intros Hline; simpl.
  - by rewrite Hline.
  - rewrite Hl. by apply IH.
Qed.

(** In capture mode the loop stops after the first line at which the
    counter is zero, or runs to the end of the lines. *)
Lemma scan_capture (post : list string) (bc : Z) (fb : list string) :
  (∃ k, (1 <= k <= length post)%nat
        ∧ bc + balance (take k post) = 0
        ∧ (∀ j, (1 <= j < k)%nat → bc + balance (take j post) ≠ 0)
        ∧ scan post true bc fb = (true, 0, fb ++ take k post))
  ∨ ((∀ k, (1 <= k <= length post)%nat → bc + balance (take k post) ≠ 0)
     ∧ scan post true bc fb = (true, bc + balance post, fb ++ post)).
Proof.
  revert bc fb. induction post as [|line post IH]; intros bc fb.
  - right. split; [simpl; lia|]. simpl. by rewrite Z.add_0_r, app_nil_r.
  - cbn [scan negb balance].
    set (bc' := bc + count "{" line - count "}" line).
    destruct (Z.eqb_spec bc' 0) as [Hz|Hnz].
    + left. exists 1%nat. simpl. rewrite Hz.
      split; [lia|]. split; [unfold bc' in Hz; lia|].
      split; [lia|reflexivity].
    + destruct (IH bc' (fb ++ [line])) as [(k & Hk & Hzero & Hmin & Hscan)
                                           |[Hall Hscan]].
      * left. exists (S k). cbn [take balance length].
        split; [lia|]. split; [unfold bc' in Hzero; lia|]. split.
        -- intros [|j] Hj; [lia|]. cbn [take balance].
           destruct j as [|j]; [simpl; unfold bc' in Hnz; lia|].
           specialize (Hmin (S j)). unfold bc' in Hmin. lia.
        -- rewrite Hscan. by rewrite <- app_assoc.
      * right. split.
        -- intros [|k] Hk; [lia|]. cbn [take balance].
           destruct k as [|k]; [simpl; unfold bc' in Hnz; lia|].
           specialize (Hall (S k)). cbn [length] in Hk.
           unfold bc' in Hall. lia.
        -- rewrite Hscan. rewrite <- app_assoc. simpl.
           do 2 f_equal. unfold bc'. lia.
Qed.

(** The lines either have no opening line, or split at the first one. *)
Lemma first_opening (lines : list string) :
  no_opening lines
  ∨ ∃ pre line post,
      lines = pre ++ line :: post ∧ no_opening pre
      ∧ match_opening line = true.
Proof.
  induction lines as [|l lines IH]; [left; constructor|].
  destruct (match_opening l) eqn:Hl.
  - right. exists [], l, lines. split; [reflexivity|]. split; [constructor|done].
  - destruct IH as [Hno|(pre & line & post & -> & Hpre & Hline)].
    + left. by constructor.
    + right. exists (l :: pre), line, post.
      split; [reflexivity|]. split; [by constructor|done].
Qed.

Lemma extract_unbalanced (pre : list string) line post :
  no_opening pre → match_opening line = true →
  (∀ k, (1 <= k <= length post)%nat → 1 + balance (take k post) ≠ 0) →
  extract_routine (pre ++ line :: post) = throw FunctionExtractionError.
Proof.
  intros Hpre Hline Hall. unfold extract_routine.
  rewrite (scan_to_opening pre line post 0 [] Hpre Hline).
  destruct (scan_capture post (0 + 1) ([] ++ [line]))
    as [(k & Hk & Hzero & _)|[_ ->]].
  - destruct (Hall k Hk). lia.
  - assert (0 + 1 + balance post ≠ 0) as Hne.
    { destruct post as [|l post]; [simpl; lia|].
      specialize (Hall (length (l :: post))).
      rewrite firstn_all in Hall. cbn [length] in Hall. lia. }
    destruct (Z.eqb_spec (0 + 1 + balance post) 0); [contradiction|reflexivity].
Qed.

Lemma extract_balanced (pre : list string) line post (k : nat) :
  no_opening pre → match_opening line = true →
  (1 <= k <= length post)%nat →
  1 + balance (take k post) = 0 →
  (∀ j, (1 <= j < k)%nat → 1 + balance (take j post) ≠ 0) →
  extract_routine (pre ++ line :: post) = ok (line :: take k post).
Proof.
  intros Hpre Hline Hk Hzero Hmin. unfold extract_routine.
  rewrite (scan_to_opening pre line post 0 [] Hpre Hline).
  destruct (scan_capture post (0 + 1) ([] ++ [line]))
    as [(k' & Hk' & Hzero' & Hmin' & ->)|[Hall _]].
  - simpl. assert (k' = k) as ->; [|reflexivity].
    destruct (Nat.lt_trichotomy k' k) as [Hlt|[->|Hgt]]; [|reflexivity|].
    + destruct (Hmin k'); lia.
    + destruct (Hmin' k); lia.
  - destruct (Hall k Hk). lia.
Qed.

(** C7, as the code has it. The extraction raises the extraction error
    exactly when the opening line of the routine is found and the end of
    the lines is reached with a counter that is not zero; it raises nothing
    else. When no line opens the routine the counter stays zero and the
    extraction succeeds with the empty body. *)
Theorem extraction_error_iff (lines : list string) :
  (extract_routine lines = throw FunctionExtractionError ↔ unbalanced lines)
  ∧ (∀ e, extract_routine lines = throw e → e = FunctionExtractionError)
  ∧ (no_opening lines → extract_routine lines = ok []).
Proof.
  split; [split|split].
  - intros Herr.
    destruct (first_opening lines) as [Hno|(pre & line & post & -> & Hp & Hl)].
    + unfold extract_routine in Herr.
      rewrite (scan_no_opening lines 0 [] Hno) in Herr. discriminate.
    + exists pre, line, post. split; [reflexivity|]. split; [assumption|].
      split; [assumption|]. intros k Hk Hzero.
      assert (∃ k', (1 <= k' <= length post)%nat
                    ∧ 1 + balance (take k' post) = 0
                    ∧ ∀ j, (1 <= j < k')%nat → 1 + balance (take j post) ≠ 0)
        as (k' & Hk' & Hz' & Hmin').
      { destruct (scan_capture post 1 []) as [(k' & ? & ? & ? & _)|[Hall _]].
        - by exists k'.
        - by destruct (Hall k Hk). }
      rewrite (extract_balanced pre line post k' Hp Hl Hk' Hz' Hmin') in Herr.
      discriminate.
  - intros (pre & line & post & -> & Hp & Hl & Hall).
    by apply extract_unbalanced.
  - intros e. unfold extract_routine.
    destruct (scan lines false 0 []) as [[capture bc] fb].
    destruct (negb (bc =? 0)); [by intros [= <-]|discriminate].
  - intros Hno. unfold extract_routine.
    by rewrite (scan_no_opening lines 0 [] Hno).
Qed.

Lemma extraction_error_iff_witness :
  extract_routine ["echo start" +:+ nl; "echo done" +:+ nl] = ok [].
Proof.
  apply (extraction_error_iff ["echo start" +:+ nl; "echo done" +:+ nl]).
  repeat constructor.
Defined.

Example extraction_examples :
  extract_routine (("echo start" +:+ nl) :: routine ++ ["echo done" +:+ nl])
  = ok routine
  ∧ extract_routine truncated_routine = throw FunctionExtractionError
  ∧ extract_routine ["toc_to_type() {" +:+ nl; "}}" +:+ nl; "{" +:+ nl]
    = ok ["toc_to_type() {" +:+ nl; "}}" +:+ nl; "{" +:+ nl].
Proof. repeat split; reflexivity. Qed.

(** C7 as stated fails: in a script that has no line opening the routine
    the extraction does not raise the extraction error, it succeeds with
    the empty body, and the external classifier then runs the harness
    alone. *)
Lemma missing_routine_is_no_error :
  no_opening ["echo start" +:+ nl; "echo done" +:+ nl]
  ∧ extract_routine ["echo start" +:+ nl; "echo done" +:+ nl] = ok []
  ∧ extract_routine ["echo start" +:+ nl; "echo done" +:+ nl]
    ≠ throw FunctionExtractionError
  ∧ _bash_toc_to_type
      {| release_sh := Some ["echo start" +:+ nl; "echo done" +:+ nl];
         bash := Some (fun _ => completed 0 nl) |} 11506
    = ([OpenReleaseSh; RunBash (harness [] 11506)], ok "").
Proof.
  split; [repeat constructor|]. split; [reflexivity|].
  split; [discriminate|reflexivity].
Qed.

(** ** Selection of the latest builds *)

Lemma foldl_insert_sound (P : FileInfo -> Prop) (l : list FileInfo)
    (d : gmap Z FileInfo) :
  (∀ f, f ∈ l → P f) →
  (∀ fid f, d !! fid = Some f → id f = fid ∧ P f) →
  ∀ fid f, foldl (fun d f => <[id f := f]> d) d l !! fid = Some f →
           id f = fid ∧ P f.
Proof.
  revert d. induction l as [|x l IH]; intros d Hl Hd fid f; simpl.
  - apply Hd.
  - apply IH.
    + intros g Hg. apply Hl. by right.
    + intros fid' g Hg. apply lookup_insert_Some in Hg as [[<- <-]|[_ Hg]].
      * split; [reflexivity|]. apply Hl. left.
      * by apply Hd.
Qed.

Lemma foldl_insert_complete (l : list FileInfo) (d : gmap Z FileInfo) fid :
  is_Some (d !! fid) ∨ (∃ f, f ∈ l ∧ id f = fid) →
  is_Some (foldl (fun d f => <[id f := f]> d) d l !! fid).
Proof.
  revert d. induction l as [|x l IH]; intros d; simpl.
  - intros [H|(f & Hf & _)]; [assumption|inversion Hf].
  - intros H. apply IH.
    destruct H as [H|(f & Hf & Hid)].
    + left. apply lookup_insert_is_Some'. by right.
    + apply elem_of_cons in Hf as [->|Hf].
      * left. apply lookup_insert_is_Some'. by left.
      * right. by exists f.
Qed.

Lemma latest_by_id_sound (files : list FileInfo) fid f :
  latest_by_id files !! fid = Some f →
  id f = fid ∧ releaseType f = 1 ∧ f ∈ files.
Proof.
  unfold latest_by_id.
  apply (foldl_insert_sound (fun f => releaseType f = 1 ∧ f ∈ files)).
  - intros g Hg. by apply list_elem_of_filter in Hg.
  - intros fid' g Hg. by rewrite lookup_empty in Hg.
Qed.

Lemma latest_by_id_complete (files : list FileInfo) f :
  f ∈ files → releaseType f = 1 → is_Some (latest_by_id files !! id f).
Proof.
  intros Hf Hr. unfold latest_by_id. apply foldl_insert_complete.
  right. exists f. split; [|reflexivity]. by apply list_elem_of_filter.
Qed.

Section select_latest.
Variable latest : gmap Z FileInfo.
Hypothesis latest_key : ∀ fid f, latest !! fid = Some f → id f = fid.

Lemma select_latest_acc indexes seen ordered :
  select_latest latest indexes seen ordered
  = ordered ++ select_latest latest indexes seen [].
Proof.
  revert seen ordered. induction indexes as [|idx indexes IH];
    intros seen ordered; simpl.
  - by rewrite app_nil_r.
  - destruct (bool_decide _); [|by apply IH].
    destruct (latest !! fileId idx) as [f|]; [|by apply IH].
    rewrite (IH _ (ordered ++ [f])), (IH _ [f]). by rewrite <- app_assoc.
Qed.

Lemma select_latest_spec indexes seen :
  let selected := select_latest latest indexes seen [] in
  (∀ f, f ∈ selected → latest !! id f = Some f ∧ id f ∉ seen)
  ∧ NoDup (id <$> selected)
  ∧ sublist (id <$> selected) (fileId <$> indexes)
  ∧ (∀ idx, idx ∈ indexes → fileId idx ∉ seen →
            is_Some (latest !! fileId idx) →
            fileId idx ∈ id <$> selected).
Proof.
  revert seen. induction indexes as [|idx indexes IH]; intros seen; simpl.
  - split; [intros f Hf; inversion Hf|]. split; [constructor|].
    split; [constructor|]. intros idx Hidx. inversion Hidx.
  - destruct (bool_decide_reflect (fileId idx ∉ seen)) as [Hfresh|Hseen].
    + destruct (latest !! fileId idx) as [f|] eqn:Hf.
      * rewrite select_latest_acc.
        destruct (IH ({[fileId idx]} ∪ seen)) as (Hin & Hnd & Hsub & Hall).
        pose proof (latest_key _ _ Hf) as Hid.
        assert (∀ x, x ∉ {[fileId idx]} ∪ seen → x ≠ fileId idx ∧ x ∉ seen)
          as Hsplit.
        { intros x Hx. split.
          - intros ->. apply Hx, elem_of_union. left.
            by apply elem_of_singleton.
          - intros Hs. apply Hx, elem_of_union. by right. }
        cbn [app fmap list_fmap].
        split; [|split; [|split]].
        -- intros g Hg. apply elem_of_cons in Hg as [->|Hg].
           ++ by rewrite Hid.
           ++ destruct (Hin g Hg) as [? Hns]. split; [assumption|].
              by apply Hsplit.
        -- apply NoDup_cons. split; [|assumption].
           intros Hmem. apply list_elem_of_fmap in Hmem as (g & Hg & Hgin).
           destruct (Hin g Hgin) as [_ Hns]. apply Hsplit in Hns as [Hns _].
           congruence.
        -- rewrite Hid. by constructor.
        -- intros idx' Hidx' Hns' Hsome. rewrite Hid.
           apply elem_of_cons in Hidx' as [->|Hidx']; [left|].
           destruct (decide (fileId idx' = fileId idx)) as [->|Hne];
             [left|right].
           apply Hall; [assumption| |assumption].
           intros Hu. apply elem_of_union in Hu as [Hu|Hu];
             [by apply elem_of_singleton in Hu|contradiction].
      * destruct (IH seen) as (Hin & Hnd & Hsub & Hall).
        split; [assumption|]. split; [assumption|].
        split; [cbn [fmap list_fmap]; by constructor|].
        intros idx' Hidx' Hns' Hsome.
        apply elem_of_cons in Hidx' as [->|Hidx'].
        -- rewrite Hf in Hsome. by destruct Hsome.
        -- by apply Hall.
    + destruct (IH seen) as (Hin & Hnd & Hsub & Hall).
      split; [assumption|]. split; [assumption|].
      split; [cbn [fmap list_fmap]; by constructor|].
      intros idx' Hidx' Hns' Hsome.
      apply elem_of_cons in Hidx' as [->|Hidx']; [contradiction|].
      by apply Hall.
Qed.
End select_latest.

(** C8. The builds that [_get_latest_files] selects are files of
    [latestFiles] with release type 1 (release), no two of them have the
    same id, their ids follow one another as in [latestFilesIndexes], and
    every id listed there that has a release file is selected. *)
Theorem latest_files_selection (r : Response ModData) (files : list FileInfo) :
  _get_latest_files r = ok files →
  Forall (fun f => releaseType f = 1
                   ∧ f ∈ default [] (latestFiles (json r))) files
  ∧ NoDup (id <$> files)
  ∧ sublist (id <$> files)
            (fileId <$> default [] (latestFilesIndexes (json r)))
  ∧ (∀ idx f,
       idx ∈ default [] (latestFilesIndexes (json r)) →
       f ∈ default [] (latestFiles (json r)) →
       releaseType f = 1 → id f = fileId idx →
       fileId idx ∈ id <$> files).
Proof.
  unfold _get_latest_files. destruct (raise_for_status r); [discriminate|].
  simpl. intros [= <-].
  set (listed := default [] (latestFiles (json r))).
  set (indexes := default [] (latestFilesIndexes (json r))).
  destruct (select_latest_spec (latest_by_id listed)
              (fun fid f H => proj1 (latest_by_id_sound listed fid f H))
              indexes ∅) as (Hin & Hnd & Hsub & Hall).
  split; [|split; [assumption|split; [assumption|]]].
  - apply Forall_forall. intros f Hf.
    destruct (Hin f Hf) as [Hl _].
    apply latest_by_id_sound in Hl as (_ & Hr & Hl). by split.
  - intros idx f Hidx Hf Hr Hid.
    apply Hall; [assumption|apply not_elem_of_empty|].
    rewrite <- Hid. by apply latest_by_id_complete.
Qed.

Lemma latest_files_selection_witness :
  _get_latest_files sample_mod = ok [build 12 1 ["4.4.0"]; build 10 1 ["10.0.0"]]
  ∧ NoDup [12; 10]
  ∧ sublist [12; 10] [12; 11; 10; 12; 99].
Proof.
  assert (_get_latest_files sample_mod
          = ok [build 12 1 ["4.4.0"]; build 10 1 ["10.0.0"]]) as Hrun
    by reflexivity.
  split; [exact Hrun|].
  destruct (latest_files_selection sample_mod _ Hrun) as (_ & Hnd & Hsub & _).
  split; [exact Hnd|exact Hsub].
Defined.

(** ** The publish step *)

Lemma raise_for_status_error {A} (r : Response A) :
  is_error_status (status_code r) → raise_for_status r = throw HTTPError.
Proof.
  unfold is_error_status, raise_for_status. intros [Hlo Hhi].
  apply Z.leb_le in Hlo. apply Z.ltb_lt in Hhi. by rewrite Hlo, Hhi.
Qed.

Lemma raise_for_status_success {A} (r : Response A) :
  ¬ is_error_status (status_code r) → raise_for_status r = ok tt.
Proof.
  unfold is_error_status, raise_for_status. intros Hn.
  destruct (Z.leb_spec 400 (status_code r)); [|reflexivity].
  destruct (Z.ltb_spec (status_code r) 600); [|reflexivity].
  destruct Hn. lia.
Qed.

(** C9. [_get_or_create_release] sends the creation request exactly when
    the lookup of the release by its tag answers 404. When the lookup
    answers with a status that is not an error, the release exists: no
    creation is sent, the service is left as it is and the upload target
    of the release found is returned. When the lookup answers with an
    error status other than 404, nothing is created and [HTTPError] is
    raised. *)
Theorem release_lookup_then_create {S} (gh : GitHub S)
    (repo owner project tag body_md : string) (st st' : S)
    (reqs : list Request) (out : result string) :
  split_once "/" repo = Some (owner, project) →
  _get_or_create_release gh repo tag body_md st = (st', reqs, out) →
  let base := GH_API +:+ "/repos/" +:+ owner +:+ "/" +:+ project in
  let lookup := base +:+ "/releases/tags/" +:+ tag in
  let payload := {| tag_name := tag; name := tag; body := body_md;
                    draft := false; prerelease := false |} in
  let found := gh_get gh st lookup in
  (existsb is_post reqs = true ↔ status_code found = 404)
  ∧ (status_code found = 404 →
     reqs = [GET lookup; POST (base +:+ "/releases") payload]
     ∧ st' = fst (gh_post gh st (base +:+ "/releases") payload)
     ∧ out = let created := snd (gh_post gh st (base +:+ "/releases") payload)
             in rbind (raise_for_status created)
                      (fun _ => upload_target created))
  ∧ (¬ is_error_status (status_code found) →
     reqs = [GET lookup] ∧ st' = st ∧ out = upload_target found)
  ∧ (is_error_status (status_code found) → status_code found ≠ 404 →
     reqs = [GET lookup] ∧ st' = st ∧ out = throw HTTPError).
Proof.
  intros Hrepo Hrun base lookup payload found.
  unfold _get_or_create_release in Hrun. rewrite Hrepo in Hrun.
  fold base lookup payload found in Hrun.
  destruct (Z.eqb_spec (status_code found) 404) as [H404|Hother].
  - destruct (gh_post gh st (base +:+ "/releases") payload) as [st1 created].
    injection Hrun as <- <- <-.
    split; [split; [intros _; assumption|reflexivity]|].
    split; [intros _; repeat split|].
    split.
    + intros Hok. destruct Hok. unfold is_error_status. lia.
    + intros _ Hne. contradiction.
  - injection Hrun as <- <- <-.
    split; [split; [discriminate|contradiction]|].
    split; [contradiction|].
    split.
    + intros Hok. rewrite (raise_for_status_success found Hok).
      repeat split.
    + intros Herr _. rewrite (raise_for_status_error found Herr).
      repeat split.
Qed.

Lemma release_lookup_then_create_witness :
  [GET sample_lookup] = [GET sample_lookup]
  ∧ published = published
  ∧ ok (sample_lookup +:+ "/assets")
    = upload_target (gh_get reference_github published sample_lookup).
Proof.
  apply (release_lookup_then_create reference_github "owner/addon" "owner"
           "addon" sample_tag "notes" published published
           [GET sample_lookup] (ok (sample_lookup +:+ "/assets"))
           eq_refl eq_refl).
  intros [Hlow _]. vm_compute in Hlow. by apply Hlow.
Defined.

(** Publishing the same tag twice: the first run creates the release, the
    second finds it, creates nothing and returns the same upload target. *)
Example publish_twice :
  _get_or_create_release reference_github "owner/addon" sample_tag "notes" ∅
  = (published,
     [GET sample_lookup;
      POST "https://api.github.com/repos/owner/addon/releases"
           {| tag_name := sample_tag; name := sample_tag; body := "notes";
              draft := false; prerelease := false |}],
     ok (sample_lookup +:+ "/assets"))
  ∧ _get_or_create_release reference_github "owner/addon" sample_tag "notes"
      published
    = (published, [GET sample_lookup], ok (sample_lookup +:+ "/assets"))
  ∧ size published = 1%nat.
Proof. repeat split; reflexivity. Qed.

Example publish_on_broken_service :
  _get_or_create_release broken_github "owner/addon" sample_tag "notes" tt
  = (tt, [GET sample_lookup], throw HTTPError)
  ∧ _get_or_create_release broken_github "addon" sample_tag "notes" tt
    = (tt, [], throw ValueError).
Proof. split; reflexivity. Qed.

(** ** The version of a manifest entry *)

Lemma append_cons (x : ascii) (a b : string) :
  String x a +:+ b = String x (a +:+ b).
Proof. reflexivity. Qed.

Lemma append_assoc (a b c : string) : (a +:+ b) +:+ c = a +:+ b +:+ c.
Proof.
  induction a as [|x a IH]; [reflexivity|]. rewrite !append_cons. congruence.
Qed.

Lemma append_nil_r (a : string) : a +:+ "" = a.
Proof.
  induction a as [|x a IH]; [reflexivity|]. rewrite append_cons. congruence.
Qed.

Lemma span_digits_spec (s : string) :
  s = (span_digits s).1 +:+ (span_digits s).2
  ∧ digits_only (span_digits s).1 = true
  ∧ ∀ c r, (span_digits s).2 = String c r → isdigit c = false.
Proof.
  induction s as [|c s (IHs & IHd & IHr)]; cbn [span_digits].
  - repeat split. intros c r [=].
  - destruct (isdigit c) eqn:Hc.
    + destruct (span_digits s) as [d r]. cbn [fst snd] in *.
      rewrite append_cons. split; [congruence|].
      split; [|assumption]. cbn [digits_only]. by rewrite Hc.
    + cbn [fst snd]. split; [reflexivity|]. split; [reflexivity|].
      intros c' r [= <- _]. assumption.
Qed.

Lemma span_digits_app (a rest : string) :
  digits_only a = true →
  span_digits (a +:+ rest)
  = (a +:+ (span_digits rest).1, (span_digits rest).2).
Proof.
  induction a as [|c a IH]; intros Ha.
  - change ("" +:+ ?x) with x. by destruct (span_digits rest).
  - simpl in Ha. apply andb_prop in Ha as [Hc Ha].
    rewrite !append_cons. simpl. rewrite Hc, (IH Ha). reflexivity.
Qed.

Lemma span_digits_stop (c : ascii) (s : string) :
  isdigit c = false → span_digits (String c s) = ("", String c s).
Proof. intros Hc. simpl. by rewrite Hc. Qed.

Lemma match_digits_spec (s d r : string) :
  match_digits s = Some (d, r) → s = d +:+ r ∧ number d.
Proof.
  unfold match_digits. destruct (span_digits_spec s) as (Hs & Hd & _).
  destruct (span_digits s) as [d' r']. simpl in *.
  destruct d' as [|c d']; [discriminate|]. intros [= <- <-].
  split; [assumption|]. split; [discriminate|assumption].
Qed.

Lemma match_digits_number (a rest : string) :
  number a →
  match_digits (a +:+ rest)
  = Some (a +:+ (span_digits rest).1, (span_digits rest).2).
Proof.
  intros [Hne Ha]. unfold match_digits. rewrite (span_digits_app a rest Ha).
  destruct a as [|c a]; [contradiction|reflexivity].
Qed.

Lemma match_version_sound (s v : string) :
  match_version s = Some v → version_run v ∧ ∃ post, s = v +:+ post.
Proof.
  unfold match_version.
  destruct (match_digits s) as [[a r1]|] eqn:Ha; [|discriminate].
  destruct r1 as [|x s1]; [discriminate|].
  destruct (Ascii.eqb_spec x ".") as [->|Hx].
  2:{ destruct x as [[] [] [] [] [] [] [] []]; try discriminate.
      by destruct Hx. }
  destruct (match_digits s1) as [[b r2]|] eqn:Hb; [|discriminate].
  destruct r2 as [|y s2]; [discriminate|].
  destruct (Ascii.eqb_spec y ".") as [->|Hy].
  2:{ destruct y as [[] [] [] [] [] [] [] []]; try discriminate.
      by destruct Hy. }
  destruct (match_digits s2) as [[c r3]|] eqn:Hc; [|discriminate].
  intros [= <-].
  apply match_digits_spec in Ha as [-> Hna], Hb as [-> Hnb], Hc as [-> Hnc].
  split; [by exists a, b, c|]. exists r3.
  change (String "." ?r) with ("." +:+ r).
  by rewrite !append_assoc.
Qed.

Lemma match_version_complete (a b c post : string) :
  number a → number b → number c →
  ∃ v, match_version (a +:+ "." +:+ b +:+ "." +:+ c +:+ post) = Some v.
Proof.
  intros Ha Hb Hc. unfold match_version.
  rewrite (match_digits_number a _ Ha).
  change ("." +:+ b +:+ "." +:+ c +:+ post)
    with (String "." (b +:+ "." +:+ c +:+ post)).
  rewrite span_digits_stop by reflexivity. cbn [fst snd].
  rewrite (match_digits_number b _ Hb).
  change ("." +:+ c +:+ post) with (String "." (c +:+ post)).
  rewrite span_digits_stop by reflexivity. cbn [fst snd].
  rewrite (match_digits_number c _ Hc). eexists. reflexivity.
Qed.

(** The search returns the match of the pattern at some position. *)
Lemma search_version_match (fn v : string) :
  search_version fn = Some v →
  ∃ pre rest, fn = pre +:+ rest ∧ match_version rest = Some v.
Proof.
  induction fn as [|x fn IH]; cbn [search_version].
  - destruct (match_version "") as [v'|] eqn:Hm; [|discriminate].
    intros [= ->]. by exists "", "".
  - destruct (match_version (String x fn)) as [v'|] eqn:Hm.
    + intros [= ->]. by exists "", (String x fn).
    + intros Hs. destruct (IH Hs) as (pre & rest & -> & Hrest).
      by exists (String x pre), rest.
Qed.

(** X1. The version that [re.search] finds in a file name is a three-part
    numeric run, and it stands in the file name. *)
Theorem search_version_sound (fn v : string) :
  search_version fn = Some v →
  version_run v ∧ ∃ pre post, fn = pre +:+ v +:+ post.
Proof.
  intros Hs. destruct (search_version_match fn v Hs) as (pre & rest & -> & Hm).
  apply match_version_sound in Hm as [Hrun [post ->]].
  split; [assumption|]. by exists pre, post.
Qed.

Lemma search_version_sound_witness :
  version_run "1.2.3"
  ∧ ∃ pre post, "Addon-1.2.3-classic.zip" = pre +:+ "1.2.3" +:+ post.
Proof.
  apply (search_version_sound "Addon-1.2.3-classic.zip" "1.2.3").
  reflexivity.
Defined.

(** X2. No version is found exactly when the file name contains no
    three-part numeric run (the entry then has the empty version). *)
Theorem search_version_none_iff (fn : string) :
  search_version fn = None
  ↔ ¬ ∃ pre v post, fn = pre +:+ v +:+ post ∧ version_run v.
Proof.
  split.
  - intros Hnone (pre & v & post & -> & a & b & c & Ha & Hb & Hc & ->).
    revert Hnone. induction pre as [|x pre IH]; intros Hnone.
    + change ("" +:+ ?s) with s in Hnone.
      destruct (match_version_complete a b c post Ha Hb Hc) as [v' Hv'].
      rewrite !append_assoc in Hnone.
      destruct a as [|y a]; [by destruct Ha|].
      rewrite append_cons in Hnone, Hv'. cbn [search_version] in Hnone.
      by rewrite Hv' in Hnone.
    + rewrite append_cons in Hnone. cbn [search_version] in Hnone.
      destruct (match_version _); [discriminate|]. by apply IH.
  - intros Hno. destruct (search_version fn) as [v|] eqn:Hs; [|reflexivity].
    destruct Hno.
    destruct (search_version_match fn v Hs) as (pre & rest & -> & Hm).
    apply match_version_sound in Hm as [Hrun [post ->]].
    by exists pre, v, post.
Qed.

(** ** The entries of the manifest *)

Lemma rmap_Forall2 {A B} (f : A -> result B) (l : list A) (ys : list B) :
  rmap f l = ok ys → Forall2 (fun x y => f x = ok y) l ys.
Proof.
  revert ys. induction l as [|x l IH]; intros ys; simpl.
  - intros [= <-]. constructor.
  - destruct (f x) as [e|y] eqn:Hx; simpl; [discriminate|].
    destruct (rmap f l) as [e|ys']; simpl; [discriminate|].
    intros [= <-]. constructor; [assumption|by apply IH].
Qed.

Lemma rmap_throw_inv {A B} (f : A -> result B) (l : list A) (e : exn) :
  rmap f l = throw e →
  ∃ pre x post, l = pre ++ x :: post
                ∧ (∀ y, y ∈ pre → ∃ b, f y = ok b) ∧ f x = throw e.
Proof.
  induction l as [|x l IH]; simpl; [discriminate|].
  destruct (f x) as [e'|y] eqn:Hx; simpl.
  - intros [= ->]. exists [], x, l. split; [reflexivity|].
    split; [intros y Hy; inversion Hy|assumption].
  - destruct (rmap f l) as [e'|ys]; simpl; [|discriminate].
    intros [= ->]. destruct (IH eq_refl) as (pre & x' & post & -> & Hpre & Hx').
    exists (x :: pre), x', post. split; [reflexivity|]. split; [|assumption].
    intros z Hz. apply elem_of_cons in Hz as [->|Hz]; [by exists y|by apply Hpre].
Qed.

Lemma int_throws (s : string) (e : exn) : int s = throw e → e = ValueError.
Proof.
  unfold int. destruct (match strip s with "" => _ | String _ _ => _ end);
    [discriminate|by intros [= <-]].
Qed.

Lemma index_throws {A} (l : list A) (i : nat) (e : exn) :
  index l i = throw e → e = IndexError.
Proof. unfold index. destruct (l !! i); [discriminate|by intros [= <-]]. Qed.

Lemma manifest_interface_inv (gv : GameVersion) (z : Z) :
  manifest_interface gv = ok z →
  ∃ major minor more,
    rmap int (split "." (gameVersionName gv)) = ok (major :: minor :: more)
    ∧ z = major * 10000 + minor * 100 + hd 0 more.
Proof.
  unfold manifest_interface.
  destruct (rmap int (split "." (gameVersionName gv))) as [e|zs];
    [discriminate|]. cbn [rbind].
  destruct zs as [|z0 [|z1 more]]; [discriminate..|].
  unfold index. cbn [lookup list_lookup rbind ok].
  destruct more as [|z2 more].
  - intros [= <-]. by exists z0, z1, [].
  - assert ((2 <? Z.of_nat (length (z0 :: z1 :: z2 :: more))) = true) as ->
      by (apply Z.ltb_lt; simpl length; lia).
    cbn [lookup list_lookup rbind ok]. intros [= <-].
    by exists z0, z1, (z2 :: more).
Qed.

Lemma pick_interface_of_numeric (gv : GameVersion) (major minor : Z)
    (more : list Z) :
  rmap int (split "." (gameVersionName gv)) = ok (major :: minor :: more) →
  pick_interface gv = ok (major * 10000 + minor * 100 + hd 0 more).
Proof.
  intros Hparts. unfold pick_interface.
  pose proof (rmap_length _ _ _ Hparts) as Hlen.
  destruct (split "." (gameVersionName gv)) as [|p0 [|p1 ps]];
    [discriminate..|].
  cbn [rmap] in Hparts. unfold index. cbn [lookup list_lookup rbind ok].
  destruct (int p0) as [e|z0]; cbn [rbind] in Hparts |- *; [discriminate|].
  destruct (int p1) as [e|z1]; cbn [rbind] in Hparts |- *; [discriminate|].
  destruct ps as [|p2 ps]; cbn [rmap rbind ok] in Hparts.
  - by injection Hparts as <- <- <-.
  - destruct (int p2) as [e|z2] eqn:H2; cbn [rbind] in Hparts; [discriminate|].
    destruct (rmap int ps) as [e|zs]; cbn [rbind ok] in Hparts;
      [discriminate|].
    injection Hparts as <- <- <-.
    assert ((2 <? Z.of_nat (length (p0 :: p1 :: p2 :: ps))) = true) as ->
      by (apply Z.ltb_lt; simpl length; lia).
    cbn [lookup list_lookup rbind ok]. by rewrite H2.
Qed.

(** X3. An interface number that the manifest builder computes is the one
    the resolver computes for the same game version; where the resolver
    computes a number and the manifest builder does not, the manifest
    builder raises [ValueError] (a component after the third is not
    numeric). *)
Theorem manifest_interface_agrees (gv : GameVersion) :
  (∀ z, manifest_interface gv = ok z → pick_interface gv = ok z)
  ∧ (∀ z, pick_interface gv = ok z →
          manifest_interface gv = ok z
          ∨ manifest_interface gv = throw ValueError).
Proof.
  split.
  - intros z Hz.
    destruct (manifest_interface_inv gv z Hz) as (a & b & more & Hparts & ->).
    by apply pick_interface_of_numeric.
  - intros z Hz.
    destruct (manifest_interface gv) as [e|z'] eqn:Hm.
    + right. f_equal. unfold manifest_interface in Hm.
      destruct (rmap int (split "." (gameVersionName gv))) as [e'|zs] eqn:Hr.
      * cbn [rbind] in Hm. injection Hm as <-.
        apply rmap_throw_inv in Hr as (_ & x & _ & _ & _ & Hx).
        by apply int_throws in Hx.
      * exfalso. cbn [rbind] in Hm.
        pose proof (rmap_length _ _ _ Hr) as Hlen.
        unfold pick_interface in Hz.
        destruct (split "." (gameVersionName gv)) as [|p0 [|p1 ps]].
        -- discriminate Hz.
        -- cbn [index lookup list_lookup rbind ok] in Hz.
           unfold index in Hz. cbn [lookup list_lookup rbind ok] in Hz.
           destruct (int p0); discriminate Hz.
        -- destruct zs as [|z0 [|z1 more]]; [discriminate Hlen..|].
           unfold index in Hm. cbn [lookup list_lookup rbind ok] in Hm.
           destruct more as [|z2 more]; [discriminate Hm|].
           assert ((2 <? Z.of_nat (length (z0 :: z1 :: z2 :: more))) = true)
             as Hlt by (apply Z.ltb_lt; simpl length; lia).
           rewrite Hlt in Hm. discriminate Hm.
    + left. f_equal.
      destruct (manifest_interface_inv gv z' Hm) as (a & b & more & Hp & ->).
      rewrite (pick_interface_of_numeric gv a b more Hp) in Hz.
      by injection Hz.
Qed.

Lemma manifest_interface_agrees_witness :
  pick_interface (game_version "1.15.6") = ok 11506
  ∧ (manifest_interface (game_version "1.15.6.x") = ok 11506
     ∨ manifest_interface (game_version "1.15.6.x") = throw ValueError).
Proof.
  split.
  - apply (manifest_interface_agrees (game_version "1.15.6")). reflexivity.
  - apply (manifest_interface_agrees (game_version "1.15.6.x")). reflexivity.
Defined.

Lemma manifest_interface_throws (gv : GameVersion) (e : exn) :
  manifest_interface gv = throw e → e = ValueError ∨ e = IndexError.
Proof.
  unfold manifest_interface.
  destruct (rmap int (split "." (gameVersionName gv))) as [e'|zs] eqn:Hr;
    cbn [rbind].
  - intros [= <-]. apply rmap_throw_inv in Hr as (_ & x & _ & _ & _ & Hx).
    left. by apply int_throws in Hx.
  - destruct (index zs 0) as [e0|z0] eqn:H0; cbn [rbind].
    { intros [= <-]. right. by apply index_throws in H0. }
    destruct (index zs 1) as [e1|z1] eqn:H1; cbn [rbind].
    { intros [= <-]. right. by apply index_throws in H1. }
    destruct (2 <? Z.of_nat (length zs)); [|discriminate].
    destruct (index zs 2) as [e2|z2] eqn:H2; cbn [rbind]; [|discriminate].
    intros [= <-]. right. by apply index_throws in H2.
Qed.

(** X4. The metadata of a build in the manifest has one element for each
    game version of the build, in their order; its interface numbers are
    the numbers the resolver computes for the build, and its flavor is the
    slug of the version-type id in the registry, "mainline" for an id the
    registry does not have. *)
Theorem manifest_metadata_spec (version_types : gmap Z string)
    (info : FileInfo) (md : list Metadata) :
  manifest_metadata version_types info = ok md →
  length md = length (sortableGameVersions info)
  ∧ interfaces info = ok (map interface md)
  ∧ map flavor md
    = map (fun gv => default "mainline"
                       (version_types !! gameVersionTypeId gv))
          (sortableGameVersions info).
Proof.
  unfold manifest_metadata, interfaces.
  generalize (sortableGameVersions info) as gvs. intros gvs. revert md.
  induction gvs as [|gv gvs IH]; intros md; cbn [rmap].
  - intros [= <-]. repeat split.
  - destruct (manifest_interface gv) as [e|z] eqn:Hz; cbn [rbind];
      [discriminate|].
    destruct (rmap _ gvs) as [e|md'] eqn:Hrest; cbn [rbind]; [discriminate|].
    intros [= <-]. destruct (IH md' eq_refl) as (Hlen & Hiv & Hfl).
    apply manifest_interface_inv in Hz as (a & b & more & Hp & ->).
    rewrite (pick_interface_of_numeric gv a b more Hp). cbn [rbind].
    rewrite Hiv. cbn [rbind length map flavor interface].
    split; [by rewrite Hlen|]. split; [reflexivity|by rewrite Hfl].
Qed.

Lemma manifest_metadata_spec_witness :
  length [ {| flavor := "classic"; interface := 11506 |};
           {| flavor := "mainline"; interface := 100000 |} ]
  = length (sortableGameVersions (build 1 1 ["1.15.6"; "10.0.0"]))
  ∧ interfaces (build 1 1 ["1.15.6"; "10.0.0"]) = ok [11506; 100000]
  ∧ ["classic"; "mainline"]
    = map (fun gv => default "mainline"
                       (({[ 517 := "classic" ]} : gmap Z string)
                          !! gameVersionTypeId gv))
          [ {| gameVersionName := "1.15.6"; gameVersionTypeId := 517 |};
            {| gameVersionName := "10.0.0"; gameVersionTypeId := 9 |} ].
Proof.
  assert (manifest_metadata {[ 517 := "classic" ]}
            {| id := 1; fileName := "Addon-1.2.3.zip"; releaseType := 1;
               downloadUrl := "";
               sortableGameVersions :=
                 [ {| gameVersionName := "1.15.6"; gameVersionTypeId := 517 |};
                   {| gameVersionName := "10.0.0"; gameVersionTypeId := 9 |} ] |}
          = ok [ {| flavor := "classic"; interface := 11506 |};
                 {| flavor := "mainline"; interface := 100000 |} ]) as Hrun
    by reflexivity.
  exact (manifest_metadata_spec _ _ _ Hrun).
Defined.

(** X5. [_build_manifest] gives one entry for each download, in their
    order: the entry has the file name of the download, the name of the
    mod, [nolib] false, the metadata of the build, and as version the
    three-part numeric run found in the file name, or the empty string. *)
Theorem build_manifest_entries (mod_name : string)
    (version_types : gmap Z string)
    (downloads : list (string * string * FileInfo))
    (entries : list Manifest.Entry) :
  _build_manifest mod_name version_types downloads = ok entries →
  Forall2 (fun d e =>
             Manifest.filename e = d.1.1
             ∧ Manifest.name e = mod_name
             ∧ Manifest.nolib e = false
             ∧ manifest_metadata version_types d.2 = ok (Manifest.metadata e)
             ∧ (Manifest.version e = "" ∧ search_version d.1.1 = None
                ∨ version_run (Manifest.version e)
                  ∧ search_version d.1.1 = Some (Manifest.version e)))
          downloads entries.
Proof.
  intros Hrun. apply rmap_Forall2 in Hrun.
  eapply Forall2_impl; [exact Hrun|]. clear.
  intros [[fn s] info] e. cbn [fst snd].
  destruct (manifest_metadata version_types info) as [err|md];
    cbn [rbind]; [discriminate|].
  intros [= <-]. cbn. repeat split.
  destruct (search_version fn) as [v|] eqn:Hv; cbn [default from_option id].
  - right. split; [|reflexivity].
    destruct (search_version_match fn v Hv) as (_ & rest & _ & Hm).
    by apply match_version_sound in Hm as [Hrun _].
  - by left.
Qed.

Lemma build_manifest_entries_witness :
  Forall2 (fun d e =>
             Manifest.filename e = d.1.1
             ∧ Manifest.name e = "Addon"
             ∧ Manifest.nolib e = false
             ∧ manifest_metadata ∅ d.2 = ok (Manifest.metadata e)
             ∧ (Manifest.version e = "" ∧ search_version d.1.1 = None
                ∨ version_run (Manifest.version e)
                  ∧ search_version d.1.1 = Some (Manifest.version e)))
          [("Addon-1.2.3-classic.zip", "classic", build 1 1 ["1.15.6"])]
          [ {| Manifest.name := "Addon"; Manifest.version := "1.2.3";
               Manifest.filename := "Addon-1.2.3-classic.zip";
               Manifest.nolib := false;
               Manifest.metadata :=
                 [ {| flavor := "mainline"; interface := 11506 |} ] |} ].
Proof.
  apply (build_manifest_entries "Addon" ∅). reflexivity.
Defined.

(** X6. [_build_manifest] raises only because of the name of a game
    version of one of the downloads: [ValueError] for a component that is
    not numeric, [IndexError] for a name of one component. *)
Theorem build_manifest_throws (mod_name : string)
    (version_types : gmap Z string)
    (downloads : list (string * string * FileInfo)) (e : exn) :
  _build_manifest mod_name version_types downloads = throw e →
  (e = ValueError ∨ e = IndexError)
  ∧ ∃ d gv, d ∈ downloads ∧ gv ∈ sortableGameVersions d.2
            ∧ manifest_interface gv = throw e.
Proof.
  intros Hrun.
  apply rmap_throw_inv in Hrun as (pre & [[fn s] info] & post & -> & _ & Hd).
  destruct (manifest_metadata version_types info) as [e'|md] eqn:Hmd;
    cbn [rbind] in Hd; [|discriminate]. injection Hd as ->.
  unfold manifest_metadata in Hmd.
  apply rmap_throw_inv in Hmd as (gpre & gv & gpost & Hgvs & _ & Hgv).
  destruct (manifest_interface gv) as [e'|z] eqn:Hz; cbn [rbind] in Hgv;
    [|discriminate]. injection Hgv as ->.
  split; [by apply (manifest_interface_throws gv)|].
  exists (fn, s, info), gv. cbn [snd].
  split; [apply elem_of_app; right; left|].
  split; [rewrite Hgvs; apply elem_of_app; right; left|assumption].
Qed.

Lemma build_manifest_throws_witness :
  (IndexError = ValueError ∨ IndexError = IndexError)
  ∧ ∃ d gv, d ∈ [("Addon.zip", "", build 1 1 ["10"])]
            ∧ gv ∈ sortableGameVersions d.2
            ∧ manifest_interface gv = throw IndexError.
Proof.
  apply (build_manifest_throws "Addon" ∅ [("Addon.zip", "", build 1 1 ["10"])]).
  reflexivity.
Defined.

(** ** The registry of version types *)

Lemma registry_lookup (listing : list VersionType) (d : gmap Z string) (t : Z) :
  foldl (fun d v => <[type_id v := slug v]> d) d listing !! t
  = match last (filter (fun v => type_id v = t) listing) with
    | Some v => Some (slug v)
    | None => d !! t
    end.
Proof.
  induction listing as [|v listing IH] using rev_ind; [reflexivity|].
  rewrite foldl_app, filter_app, last_app. cbn [foldl].
  rewrite filter_cons, filter_nil.
  destruct (decide (type_id v = t)) as [<-|Hne].
  - cbn [last]. by rewrite lookup_insert_eq.
  - cbn [last]. by rewrite lookup_insert_ne.
Qed.

(** X7. In the registry that [_load_version_types] builds, a version-type
    id has the slug of the last entry of the listing with this id; an id
    that the listing does not have is absent, and the manifest gives it
    the flavor "mainline". A listing answered with an error status raises
    [HTTPError]. *)
Theorem load_version_types_spec (r : Response (list VersionType)) :
  (is_error_status (status_code r) →
   _load_version_types r = throw HTTPError)
  ∧ (∀ version_types, _load_version_types r = ok version_types →
       ∀ t, default "mainline" (version_types !! t)
            = registry_slug (json r) t
            ∧ (version_types !! t = None
               ↔ ∀ v, v ∈ json r → type_id v ≠ t)).
Proof.
  unfold _load_version_types. split.
  - intros Herr. by rewrite (raise_for_status_error r Herr).
  - intros vt. destruct (raise_for_status r); [discriminate|].
    cbn [rbind]. intros [= <-] t. rewrite registry_lookup, lookup_empty.
    unfold registry_slug. split.
    + by destruct (last _).
    + destruct (last _) as [v|] eqn:Hlast.
      * split; [discriminate|]. intros Hall. exfalso.
        apply last_Some in Hlast as [l' Hl'].
        assert (v ∈ filter (fun v => type_id v = t) (json r)) as Hv
          by (rewrite Hl'; apply elem_of_app; right; left).
        apply list_elem_of_filter in Hv as [Ht Hin]. by apply (Hall v).
      * split; [|reflexivity]. intros _ v Hin Ht.
        apply last_None in Hlast.
        assert (v ∈ filter (fun v => type_id v = t) (json r)) as Hv
          by (by apply list_elem_of_filter).
        rewrite Hlast in Hv. inversion Hv.
Qed.

Lemma load_version_types_spec_witness :
  _load_version_types {| status_code := 503; json := [] |} = throw HTTPError.
Proof.
  apply (load_version_types_spec {| status_code := 503; json := [] |}).
  unfold is_error_status. simpl. lia.
Defined.

Example load_version_types_example :
  rbind (_load_version_types
           {| status_code := 200;
              json := [ {| type_id := 517; slug := "wow_retail" |};
                        {| type_id := 67408; slug := "classic" |};
                        {| type_id := 517; slug := "mainline" |} ] |})
        (fun vt => ok (map (fun t => default "mainline" (vt !! t))
                           [517; 67408; 1]))
  = ok ["mainline"; "classic"; "mainline"].
Proof. reflexivity. Qed.

(** ** The local file name of a build *)

Lemma endswith_spec (suffix s : string) :
  endswith suffix s = true ↔ ∃ p, s = p +:+ suffix.
Proof.
  induction s as [|x s IH].
  - cbn [endswith]. rewrite orb_false_r. split.
    + intros H. apply String.eqb_eq in H as <-. by exists "".
    + intros [p Hp]. apply String.eqb_eq.
      destruct p as [|y p]; [exact Hp|discriminate Hp].
  - cbn [endswith]. split.
    + intros H. apply orb_prop in H as [H|H].
      * apply String.eqb_eq in H as <-. by exists "".
      * apply IH in H as [p ->]. by exists (String x p).
    + intros [p Hp]. apply orb_true_intro.
      destruct p as [|y p].
      * left. apply String.eqb_eq. exact Hp.
      * right. rewrite append_cons in Hp. injection Hp as _ ->.
        apply IH. by exists p.
Qed.

Lemma rsplit_once_zip (stem : string) :
  rsplit_once ".zip" (stem +:+ ".zip") = Some (stem, "").
Proof.
  induction stem as [|x stem IH]; [reflexivity|].
  rewrite append_cons. cbn [rsplit_once]. by rewrite IH.
Qed.

Lemma local_filename_stem (file_name slug_ : string) :
  ∃ stem, local_filename file_name slug_ = stem +:+ ".zip"
          ∧ (slug_ = "" ∨ endswith ("-" +:+ slug_) stem = true).
Proof.
  unfold local_filename.
  set (base := match rsplit_once ".zip" file_name with
               | Some (before, _) => before
               | None => file_name
               end).
  destruct (String.eqb_spec slug_ "") as [->|Hne]; cbn [negb andb].
  - exists base. split; [reflexivity|by left].
  - destruct (endswith ("-" +:+ slug_) base) eqn:He; cbn [negb].
    + exists base. split; [reflexivity|by right].
    + exists (base +:+ "-" +:+ slug_). split; [by rewrite !append_assoc|].
      right. apply endswith_spec. by exists base.
Qed.

(** X8. The local file name always ends in ".zip", and for a slug that is
    not empty in the slug after a hyphen and ".zip". *)
Theorem local_filename_suffix (file_name slug_ : string) :
  ∃ stem, local_filename file_name slug_ = stem +:+ ".zip"
          ∧ (slug_ ≠ "" → ∃ p, stem = p +:+ "-" +:+ slug_).
Proof.
  destruct (local_filename_stem file_name slug_) as (stem & Heq & Hslug).
  exists stem. split; [exact Heq|]. intros Hne.
  destruct Hslug as [->|He]; [contradiction|].
  by apply endswith_spec in He.
Qed.

(** X9. Naming is idempotent: the local file name of a build whose file
    name already is a local file name for the same slug is that name; the
    slug is not appended twice. *)
Theorem local_filename_idempotent (file_name slug_ : string) :
  local_filename (local_filename file_name slug_) slug_
  = local_filename file_name slug_.
Proof.
  destruct (local_filename_stem file_name slug_) as (stem & -> & Hslug).
  unfold local_filename. rewrite rsplit_once_zip.
  destruct (String.eqb_spec slug_ "") as [->|Hne]; cbn [negb andb];
    [reflexivity|].
  destruct Hslug as [->|He]; [contradiction|]. by rewrite He.
Qed.

Lemma local_filename_zip (stem slug_ : string) :
  local_filename (stem +:+ ".zip") slug_
  = (if negb (String.eqb slug_ "") && negb (endswith ("-" +:+ slug_) stem)
     then stem +:+ "-" +:+ slug_ else stem) +:+ ".zip".
Proof. unfold local_filename. by rewrite rsplit_once_zip. Qed.

(** X10. For a file name [stem.zip]: a build with the empty slug, or whose
    stem already ends in the slug after a hyphen, keeps its file name;
    another build gets [stem-slug.zip]. *)
Theorem local_filename_of_zip (stem slug_ : string) :
  ((slug_ = "" ∨ ∃ p, stem = p +:+ "-" +:+ slug_) →
   local_filename (stem +:+ ".zip") slug_ = stem +:+ ".zip")
  ∧ (slug_ ≠ "" → (¬ ∃ p, stem = p +:+ "-" +:+ slug_) →
     local_filename (stem +:+ ".zip") slug_
     = stem +:+ "-" +:+ slug_ +:+ ".zip").
Proof.
  rewrite local_filename_zip. split.
  - intros [->|Hp]; [reflexivity|].
    apply endswith_spec in Hp. rewrite Hp. by rewrite andb_false_r.
  - intros Hne Hno.
    destruct (String.eqb_spec slug_ "") as [?|_]; [contradiction|].
    destruct (endswith ("-" +:+ slug_) stem) eqn:He.
    + destruct Hno. by apply endswith_spec.
    + cbn [negb andb]. by rewrite !append_assoc.
Qed.

Lemma local_filename_of_zip_witness :
  local_filename ("Addon-1.2.3-classic" +:+ ".zip") "classic"
  = "Addon-1.2.3-classic" +:+ ".zip"
  ∧ local_filename ("Addon-1.2.3" +:+ ".zip") "cata"
    = "Addon-1.2.3" +:+ "-" +:+ "cata" +:+ ".zip".
Proof.
  split.
  - apply (local_filename_of_zip "Addon-1.2.3-classic" "classic").
    right. by exists "Addon-1.2.3".
  - apply (local_filename_of_zip "Addon-1.2.3" "cata"); [discriminate|].
    intros Hp. apply endswith_spec in Hp. discriminate Hp.
Defined.

Example local_filename_examples :
  map (fun p => local_filename p.1 p.2)
      [("Addon.zip.bak", ""); ("Addon", "cata"); ("x.zipzip", "")]
  = ["Addon.zip"; "Addon-cata.zip"; "x.zip"].
Proof. reflexivity. Qed.

(** ** Downloading a build *)

Lemma download_outcome (h : Host) (cf_get : string -> Response string)
    (info : FileInfo) :
  outcome (_download_file h cf_get info)
  = rbind (outcome (_pick_slug h info)) (fun slug_ =>
    rbind (raise_for_status (cf_get (downloadUrl info))) (fun _ =>
    ok (local_filename (fileName info) slug_, slug_, info))).
Proof.
  unfold _download_file. rewrite outcome_bind.
  destruct (outcome (_pick_slug h info)) as [e|slug_]; [reflexivity|].
  cbn [rbind]. rewrite outcome_bind, outcome_lift.
  by destruct (raise_for_status _).
Qed.

(** X11. A build one of whose game versions is classified "retail" is
    downloaded under its own file name, when that name ends in ".zip" and
    the download is answered without an error status: no slug is
    appended. *)
Theorem download_retail_keeps_name (h : Host)
    (cf_get : string -> Response string) (info : FileInfo)
    (ivals : list Z) (c : Z -> string) (stem : string) :
  interfaces info = ok ivals →
  classified_by h ivals c →
  (∃ iv, iv ∈ ivals ∧ c iv = "retail") →
  fileName info = stem +:+ ".zip" →
  ¬ is_error_status (status_code (cf_get (downloadUrl info))) →
  outcome (_download_file h cf_get info) = ok (fileName info, "", info).
Proof.
  intros Hiv Hc Hretail Hname Hok. rewrite download_outcome.
  rewrite (pick_slug_refines h info ivals c Hiv Hc).
  rewrite (resolve_with_retail c ivals Hretail). cbn [rbind ok].
  rewrite (raise_for_status_success _ Hok). cbn [rbind ok].
  by rewrite Hname, local_filename_zip.
Qed.

Lemma download_retail_keeps_name_witness :
  outcome (_download_file host_without_bash
             (fun _ => {| status_code := 200; json := "bytes" |})
             (build 1 1 ["1.15.6"; "10.0.0"]))
  = ok ("Addon-1.2.3.zip", "", build 1 1 ["1.15.6"; "10.0.0"]).
Proof.
  refine (download_retail_keeps_name host_without_bash _
            (build 1 1 ["1.15.6"; "10.0.0"]) [11506; 100000] toc_to_type
            "Addon-1.2.3" _ _ _ _ _).
  - reflexivity.
  - right. split; [|reflexivity].
    exists 11506. split; [left|reflexivity].
  - exists 100000. split; [right; left|reflexivity].
  - reflexivity.
  - intros [Hlow _]. vm_compute in Hlow. by apply Hlow.
Defined.

(** X12. A build all of whose game versions are classified as one slug
    other than "retail" is downloaded under [stem-slug.zip] when its file
    name is [stem.zip] and the stem does not end in the slug after a
    hyphen, and the slug is returned with the name. *)
Theorem download_flavor_name (h : Host)
    (cf_get : string -> Response string) (info : FileInfo)
    (ivals : list Z) (c : Z -> string) (stem s : string) :
  interfaces info = ok ivals →
  classified_by h ivals c →
  ivals ≠ [] → (∀ iv, iv ∈ ivals → c iv = s) →
  s ≠ "retail" → s ≠ "" →
  fileName info = stem +:+ ".zip" →
  (¬ ∃ p, stem = p +:+ "-" +:+ s) →
  ¬ is_error_status (status_code (cf_get (downloadUrl info))) →
  outcome (_download_file h cf_get info)
  = ok (stem +:+ "-" +:+ s +:+ ".zip", s, info).
Proof.
  intros Hiv Hc Hne Hall Hnr Hs Hname Hstem Hok. rewrite download_outcome.
  rewrite (pick_slug_refines h info ivals c Hiv Hc).
  rewrite (resolve_with_single c ivals s Hne Hall Hnr). cbn [rbind ok].
  rewrite (raise_for_status_success _ Hok). cbn [rbind ok].
  rewrite Hname, local_filename_zip.
  destruct (String.eqb_spec s "") as [?|_]; [contradiction|].
  destruct (endswith ("-" +:+ s) stem) eqn:He.
  - destruct Hstem. by apply endswith_spec.
  - cbn [negb andb]. by rewrite !append_assoc.
Qed.

Lemma download_flavor_name_witness :
  outcome (_download_file host_without_bash
             (fun _ => {| status_code := 200; json := "bytes" |})
             (build 1 1 ["1.15.6"]))
  = ok ("Addon-1.2.3" +:+ "-" +:+ "classic" +:+ ".zip", "classic",
        build 1 1 ["1.15.6"]).
Proof.
  refine (download_flavor_name host_without_bash _ (build 1 1 ["1.15.6"])
            [11506] toc_to_type "Addon-1.2.3" "classic" _ _ _ _ _ _ _ _ _).
  - reflexivity.
  - right. split; [|reflexivity].
    exists 11506. split; [left|reflexivity].
  - discriminate.
  - intros iv Hin. apply list_elem_of_singleton in Hin as ->. reflexivity.
  - discriminate.
  - discriminate.
  - reflexivity.
  - intros Hp. apply endswith_spec in Hp. discriminate Hp.
  - intros [Hlow _]. vm_compute in Hlow. by apply Hlow.
Defined.

(** X13. A download answered with an error status raises [HTTPError]
    after the build has been resolved; a failure of the resolution comes
    out of [_download_file] as it is. *)
Theorem download_failures (h : Host) (cf_get : string -> Response string)
    (info : FileInfo) :
  (∀ e, outcome (_pick_slug h info) = throw e →
        outcome (_download_file h cf_get info) = throw e)
  ∧ (∀ slug_, outcome (_pick_slug h info) = ok slug_ →
       is_error_status (status_code (cf_get (downloadUrl info))) →
       outcome (_download_file h cf_get info) = throw HTTPError)
  ∧ log_of (_download_file h cf_get info) = log_of (_pick_slug h info).
Proof.
  split; [|split].
  - intros e He. by rewrite download_outcome, He.
  - intros slug_ Hs Herr. rewrite download_outcome, Hs. cbn [rbind ok].
    by rewrite (raise_for_status_error _ Herr).
  - unfold _download_file.
    destruct (outcome (_pick_slug h info)) as [e|slug_] eqn:Hs.
    + by rewrite (log_bind_throw _ _ e Hs).
    + rewrite (log_bind_ok _ _ slug_ Hs).
      destruct (raise_for_status (cf_get (downloadUrl info))) as [e|[]];
        unfold bind, lift, ret; cbn [log_of fst]; by rewrite !app_nil_r.
Qed.

Lemma download_failures_witness :
  outcome (_download_file host_without_bash
             (fun _ => {| status_code := 404; json := "" |})
             (build 1 1 ["1.15.6"])) = throw HTTPError.
Proof.
  apply (download_failures host_without_bash
           (fun _ => {| status_code := 404; json := "" |})
           (build 1 1 ["1.15.6"])) with (slug_ := "classic").
  - reflexivity.
  - unfold is_error_status. simpl. lia.
Defined.

(** ** The resolver: edges and exceptions *)

Lemma pick_interface_throws (gv : GameVersion) (e : exn) :
  pick_interface gv = throw e → e = ValueError ∨ e = IndexError.
Proof.
  unfold pick_interface.
  set (parts := split "." (gameVersionName gv)).
  assert (∀ i e', rbind (index parts i) int = throw e' →
                  e' = ValueError ∨ e' = IndexError) as Hpart.
  { intros i e'. destruct (index parts i) as [e0|p] eqn:Hi; cbn [rbind].
    - intros [= <-]. right. by apply index_throws in Hi.
    - intros Hp. left. by apply int_throws in Hp. }
  destruct (rbind (index parts 0) int) as [e0|z0] eqn:H0; cbn [rbind].
  { intros [= <-]. by apply (Hpart 0%nat). }
  destruct (rbind (index parts 1) int) as [e1|z1] eqn:H1; cbn [rbind].
  { intros [= <-]. by apply (Hpart 1%nat). }
  destruct (2 <? Z.of_nat (length parts)); [|discriminate].
  destruct (rbind (index parts 2) int) as [e2|z2] eqn:H2; cbn [rbind];
    [|discriminate].
  intros [= <-]. by apply (Hpart 2%nat).
Qed.

Lemma pick_slug_stops_at_names (h : Host) (info : FileInfo) (e : exn) :
  interfaces info = throw e → _pick_slug h info = ([], throw e).
Proof. intros Hiv. unfold _pick_slug, interfaces in *. by rewrite Hiv. Qed.

Lemma interfaces_throws (info : FileInfo) (e : exn) :
  interfaces info = throw e → e = ValueError ∨ e = IndexError.
Proof.
  unfold interfaces. intros Hiv.
  apply rmap_throw_inv in Hiv as (_ & gv & _ & _ & _ & Hgv).
  by apply (pick_interface_throws gv).
Qed.

(** X14. The resolver converts the names of all game versions of a build
    before it accesses the host: a name of one component raises
    [IndexError], a component that is not numeric raises [ValueError], and
    the log of the resolution is then empty. *)
Theorem pick_slug_bad_name (h : Host) (info : FileInfo) (e : exn) :
  interfaces info = throw e →
  _pick_slug h info = ([], throw e) ∧ (e = ValueError ∨ e = IndexError).
Proof.
  intros Hiv. split.
  - by apply pick_slug_stops_at_names.
  - by apply (interfaces_throws info).
Qed.

Lemma pick_slug_bad_name_witness :
  _pick_slug host_with_bash (build 1 1 ["1.15.6"; "classic"])
  = ([], throw ValueError)
  ∧ (ValueError = ValueError ∨ ValueError = IndexError).
Proof.
  apply (pick_slug_bad_name host_with_bash
           (build 1 1 ["1.15.6"; "classic"]) ValueError).
  reflexivity.
Defined.

(** X15. A build without game versions cannot be resolved: on every host
    [_pick_slug] raises [ValueError] (the maximum of no number), and the
    host is not accessed. *)
Theorem pick_slug_no_versions (h : Host) (info : FileInfo) :
  sortableGameVersions info = [] →
  _pick_slug h info = ([], throw ValueError).
Proof.
  intros Hnone. unfold _pick_slug. rewrite Hnone. reflexivity.
Qed.

Lemma pick_slug_no_versions_witness :
  _pick_slug host_with_bash (build 1 1 []) = ([], throw ValueError).
Proof. apply (pick_slug_no_versions host_with_bash (build 1 1 [])). reflexivity. Defined.




(** ** The extracted routine and the slug of the external classifier *)



Example one_line_routine_not_extracted :
  extract_routine ["toc_to_type() { eval $2=retail; }" +:+ nl]
  = throw FunctionExtractionError
  ∧ extract_routine ["toc_to_type() { eval $2=retail; }" +:+ nl;
                     "other() {" +:+ nl; "}" +:+ nl; "}" +:+ nl]
    = ok ["toc_to_type() { eval $2=retail; }" +:+ nl;
          "other() {" +:+ nl; "}" +:+ nl; "}" +:+ nl].
Proof. split; reflexivity. Qed.

Lemma rstrip_cons (c : ascii) (s : string) :
  isspace c = false → rstrip (String c s) = String c (rstrip s).
Proof. intros Hc. cbn [rstrip]. rewrite Hc. by destruct (rstrip s). Qed.

Lemma rstrip_idempotent (s : string) : rstrip (rstrip s) = rstrip s.
Proof.
  induction s as [|c s IH]; [reflexivity|]. cbn [rstrip].
  destruct (rstrip s) as [|d r] eqn:Hr.
  - destruct (isspace c) eqn:Hc; [reflexivity|].
    cbn [rstrip]. by rewrite Hc.
  - change (rstrip (String c (String d r))
            = String c (String d r)).
    cbn [rstrip]. cbn [rstrip] in IH.
    destruct (rstrip r) as [|d' r'] eqn:Hr'.
    + destruct (isspace d); [discriminate IH|congruence].
    + by rewrite IH.
Qed.

Lemma lstrip_head (s : string) :
  lstrip s = "" ∨ ∃ c r, lstrip s = String c r ∧ isspace c = false.
Proof.
  induction s as [|c s IH]; [by left|]. cbn [lstrip].
  destruct (isspace c) eqn:Hc; [assumption|]. right. by exists c, s.
Qed.

Lemma strip_idempotent (s : string) : strip (strip s) = strip s.
Proof.
  unfold strip. destruct (lstrip_head s) as [->|(c & r & -> & Hc)];
    [reflexivity|].
  rewrite (rstrip_cons c r Hc). cbn [lstrip]. rewrite Hc.
  rewrite (rstrip_cons c _ Hc). by rewrite rstrip_idempotent.
Qed.

(** X18. A slug that the external classifier returns has no white space
    at its ends (stripping it again changes nothing), whatever the
    interpreter printed. *)
Theorem external_slug_stripped (h : Host) (iv : Z) (s : string) :
  external h iv = ok s → strip s = s.
Proof.
  rewrite external_eq.
  destruct (release_sh h) as [lines|]; [|discriminate].
  destruct (extract_routine lines) as [e|body]; cbn [rbind]; [discriminate|].
  destruct (bash h) as [interp|]; [|discriminate].
  cbv zeta. destruct (negb _); [discriminate|].
  intros [= <-]. apply strip_idempotent.
Qed.

Lemma external_slug_stripped_witness : strip "classic" = "classic".
Proof.
  apply (external_slug_stripped host_with_bash 11506 "classic"). reflexivity.
Defined.

(** ** The bands of the built-in classifier in numbers *)

Lemma agrees_from_sound (f : Z -> string) (n : nat) (z0 : Z) :
  agrees_from f n z0 = true →
  ∀ z, z0 <= z < z0 + Z.of_nat n → toc_to_type z = f z.
Proof.
  revert z0. induction n as [|n IH]; intros z0 H z Hz; [lia|].
  cbn [agrees_from] in H. apply andb_prop in H as [H1 H2].
  destruct (Z.eq_dec z z0) as [->|Hne]; [by apply String.eqb_eq|].
  apply (IH (z0 + 1) H2). lia.
Qed.

(** X20. On the five-digit interface numbers (versions 1.0.0 to 9.99.99)
    [toc_to_type] is the table by thousands: 11000-11999 "classic",
    20000-20999 "bcc", 30000-30999 "wrath", 40000-40999 "cata", "retail"
    elsewhere. *)
Theorem five_digit_bands (z : Z) :
  10000 <= z <= 99999 → toc_to_type z = band_of z.
Proof.
  intros Hz. apply (agrees_from_sound band_of (Z.to_nat 90000) 10000).
  - vm_compute. reflexivity.
  - rewrite Z2Nat.id by lia. lia.
Qed.

Lemma five_digit_bands_witness : toc_to_type 90205 = band_of 90205.
Proof. apply (five_digit_bands 90205). lia. Defined.

(** X21. On six-digit interface numbers the prefixes still decide: the
    versions 20.x, 30.x and 40.x (200000-209999, 300000-309999,
    400000-409999) are classified "bcc", "wrath" and "cata", while the
    versions 11.x (110000-119999) are "retail", "classic" being kept to
    five digits. *)
Theorem six_digit_prefixes (z : Z) :
  (200000 <= z <= 209999 → toc_to_type z = "bcc")
  ∧ (300000 <= z <= 309999 → toc_to_type z = "wrath")
  ∧ (400000 <= z <= 409999 → toc_to_type z = "cata")
  ∧ (110000 <= z <= 119999 → toc_to_type z = "retail").
Proof.
  repeat split; intros Hz.
  - apply (agrees_from_sound (fun _ => "bcc") (Z.to_nat 10000) 200000);
      [vm_compute; reflexivity|rewrite Z2Nat.id by lia; lia].
  - apply (agrees_from_sound (fun _ => "wrath") (Z.to_nat 10000) 300000);
      [vm_compute; reflexivity|rewrite Z2Nat.id by lia; lia].
  - apply (agrees_from_sound (fun _ => "cata") (Z.to_nat 10000) 400000);
      [vm_compute; reflexivity|rewrite Z2Nat.id by lia; lia].
  - apply (agrees_from_sound (fun _ => "retail") (Z.to_nat 10000) 110000);
      [vm_compute; reflexivity|rewrite Z2Nat.id by lia; lia].
Qed.

Lemma six_digit_prefixes_witness : toc_to_type 200005 = "bcc".
Proof. apply (six_digit_prefixes 200005). lia. Defined.

(** ** The latest builds: duplicates and edges *)

Lemma latest_by_id_snoc (files : list FileInfo) (x : FileInfo) :
  latest_by_id (files ++ [x])
  = if decide (releaseType x = 1) then <[id x := x]> (latest_by_id files)
    else latest_by_id files.
Proof.
  unfold latest_by_id. rewrite filter_app, foldl_app.
  rewrite filter_cons, filter_nil.
  destruct (decide (releaseType x = 1)); reflexivity.
Qed.

Lemma latest_by_id_last (files : list FileInfo) (fid : Z) (f : FileInfo) :
  latest_by_id files !! fid = Some f →
  ∃ l1 l2, files = l1 ++ f :: l2
           ∧ ∀ g, g ∈ l2 → ¬ (id g = fid ∧ releaseType g = 1).
Proof.
  induction files as [|x files IH] using rev_ind.
  - unfold latest_by_id. cbn. by rewrite lookup_empty.
  - rewrite latest_by_id_snoc.
    assert (latest_by_id files !! fid = Some f →
            ¬ (id x = fid ∧ releaseType x = 1) →
            ∃ l1 l2, files ++ [x] = l1 ++ f :: l2
                     ∧ ∀ g, g ∈ l2 → ¬ (id g = fid ∧ releaseType g = 1))
      as Hold.
    { intros Hf Hx. destruct (IH Hf) as (l1 & l2 & -> & Hl2).
      exists l1, (l2 ++ [x]). split; [by rewrite <- app_assoc|].
      intros g Hg. apply elem_of_app in Hg as [Hg|Hg]; [by apply Hl2|].
      by apply list_elem_of_singleton in Hg as ->. }
    destruct (decide (releaseType x = 1)) as [Hr|Hr].
    + intros Hf. apply lookup_insert_Some in Hf as [[Hid <-]|[Hne Hf]].
      * exists files, []. split; [reflexivity|]. intros g Hg. inversion Hg.
      * apply Hold; [assumption|]. by intros [? _].
    + intros Hf. apply Hold; [assumption|]. by intros [_ ?].
Qed.

(** X22. When [latestFiles] has several release files with the same id,
    the build selected for this id is the last of them: no release file
    with the same id follows it in [latestFiles]. *)
Theorem latest_files_last_wins (r : Response ModData)
    (files : list FileInfo) (f : FileInfo) :
  _get_latest_files r = ok files → f ∈ files →
  ∃ l1 l2, default [] (latestFiles (json r)) = l1 ++ f :: l2
           ∧ ∀ g, g ∈ l2 → ¬ (id g = id f ∧ releaseType g = 1).
Proof.
  unfold _get_latest_files. destruct (raise_for_status r); [discriminate|].
  cbn [rbind ok]. intros [= <-] Hf.
  set (listed := default [] (latestFiles (json r))) in *.
  destruct (select_latest_spec (latest_by_id listed)
              (fun fid f H => proj1 (latest_by_id_sound listed fid f H))
              (default [] (latestFilesIndexes (json r))) ∅)
    as (Hin & _).
  destruct (Hin f Hf) as [Hl _]. by apply latest_by_id_last in Hl.
Qed.

Lemma latest_files_last_wins_witness :
  ∃ l1 l2,
    [build 7 1 ["1.15.6"]; build 7 2 ["1.15.7"]; build 7 1 ["1.15.8"];
     build 7 3 ["1.15.9"]]
    = l1 ++ build 7 1 ["1.15.8"] :: l2
    ∧ ∀ g, g ∈ l2 → ¬ (id g = 7 ∧ releaseType g = 1).
Proof.
  refine (latest_files_last_wins
            {| status_code := 200;
               json := {| latestFiles :=
                            Some [build 7 1 ["1.15.6"]; build 7 2 ["1.15.7"];
                                  build 7 1 ["1.15.8"]; build 7 3 ["1.15.9"]];
                          latestFilesIndexes :=
                            Some [ {| fileId := 7; gameVersion := "" |} ] |} |}
            [build 7 1 ["1.15.8"]] (build 7 1 ["1.15.8"]) _ _).
  - reflexivity.
  - left.
Defined.




(** ** Publishing twice, and the edges of the publish step *)

Lemma publish_found {S} (gh : GitHub S) (owner project tag body_md : string)
    (repo : string) (st : S) :
  split_once "/" repo = Some (owner, project) →
  let lookup := (GH_API +:+ "/repos/" +:+ owner +:+ "/" +:+ project)
                +:+ "/releases/tags/" +:+ tag in
  ¬ is_error_status (status_code (gh_get gh st lookup)) →
  _get_or_create_release gh repo tag body_md st
  = (st, [GET lookup], upload_target (gh_get gh st lookup)).
Proof.
  intros Hrepo lookup Hok. unfold _get_or_create_release. rewrite Hrepo.
  fold lookup.
  destruct (Z.eqb_spec (status_code (gh_get gh st lookup)) 404) as [E|_].
  { destruct Hok. unfold is_error_status. lia. }
  by rewrite (raise_for_status_success _ Hok).
Qed.

(** X24. On a service that keeps its releases the publish step is
    idempotent: after a run that returned an upload target, a second run
    for the same tag, whatever its changelog, sends the lookup alone,
    leaves the service as it is and returns the same upload target. *)
Theorem publish_idempotent {S} (gh : GitHub S)
    (repo tag body_md body_md' : string) (st st1 : S)
    (reqs : list Request) (target : string) :
  keeps_releases gh →
  _get_or_create_release gh repo tag body_md st = (st1, reqs, ok target) →
  ∃ lookup,
    _get_or_create_release gh repo tag body_md' st1
    = (st1, [GET lookup], ok target).
Proof.
  intros Hkeeps Hrun.
  destruct (split_once "/" repo) as [[owner project]|] eqn:Hrepo.
  2:{ unfold _get_or_create_release in Hrun. rewrite Hrepo in Hrun.
      discriminate Hrun. }
  set (base := GH_API +:+ "/repos/" +:+ owner +:+ "/" +:+ project).
  exists (base +:+ "/releases/tags/" +:+ tag).
  pose proof Hrun as Hrun'.
  unfold _get_or_create_release in Hrun. rewrite Hrepo in Hrun.
  fold base in Hrun.
  destruct (Z.eqb_spec
              (status_code (gh_get gh st (base +:+ "/releases/tags/" +:+ tag)))
              404) as [E404|Hne].
  - set (payload := {| tag_name := tag; name := tag; body := body_md;
                       draft := false; prerelease := false |}) in *.
    specialize (Hkeeps st base payload).
    destruct (gh_post gh st (base +:+ "/releases") payload)
      as [st' created] eqn:Hpost.
    cbn [fst snd] in Hkeeps. injection Hrun as <- _ Hout.
    assert (¬ is_error_status (status_code created)) as Hcreated.
    { intros Herr. rewrite (raise_for_status_error _ Herr) in Hout.
      discriminate Hout. }
    destruct (Hkeeps Hcreated) as [Hfound Hjson].
    rewrite (publish_found gh owner project tag body_md' repo st' Hrepo Hfound).
    fold base. f_equal.
    rewrite (raise_for_status_success _ Hcreated) in Hout.
    cbn [rbind ok] in Hout. rewrite <- Hout.
    unfold upload_target. unfold payload in Hjson. cbn [tag_name] in Hjson.
    by rewrite Hjson.
  - injection Hrun as <- _ Hout.
    assert (¬ is_error_status
                (status_code
                   (gh_get gh st (base +:+ "/releases/tags/" +:+ tag))))
      as Hfound.
    { intros Herr. rewrite (raise_for_status_error _ Herr) in Hout.
      discriminate Hout. }
    rewrite (publish_found gh owner project tag body_md' repo st Hrepo Hfound).
    fold base. f_equal.
    rewrite (raise_for_status_success _ Hfound) in Hout.
    cbn [rbind ok] in Hout. by rewrite <- Hout.
Qed.

Lemma reference_github_keeps_releases : keeps_releases reference_github.
Proof.
  intros st base payload _. cbn [reference_github gh_post gh_get fst snd].
  rewrite append_assoc.
  change ("/releases" +:+ "/tags/" +:+ tag_name payload)
    with ("/releases/tags/" +:+ tag_name payload).
  rewrite lookup_insert_eq. cbn [status_code json].
  split; [|reflexivity]. unfold is_error_status. lia.
Qed.

Lemma publish_idempotent_witness :
  ∃ lookup,
    _get_or_create_release reference_github "owner/addon" sample_tag
      "other notes" published
    = (published, [GET lookup], ok (sample_lookup +:+ "/assets")).
Proof.
  refine (publish_idempotent reference_github "owner/addon" sample_tag
            "notes" "other notes" ∅ published _ _
            reference_github_keeps_releases _).
  reflexivity.
Defined.

Lemma split_once_none (sep : ascii) (s : string) :
  split_once sep s = None ↔ count sep s = 0.
Proof.
  assert (∀ t, 0 <= count sep t) as Hnonneg.
  { induction t as [|c t IH]; cbn [count]; [lia|].
    destruct (Ascii.eqb c sep); lia. }
  induction s as [|c s IH]; cbn [split_once count]; [done|].
  destruct (Ascii.eqb c sep).
  - split; [discriminate|]. specialize (Hnonneg s). lia.
  - destruct (split_once sep s) as [[a b]|].
    + split; [discriminate|]. intros H. destruct IH as [_ IH].
      by discriminate IH; lia.
    + split; [|reflexivity]. intros _. destruct IH as [IH _].
      specialize (IH eq_refl). lia.
Qed.

(** X25. Without a slash in [GITHUB_REPOSITORY] (the variable unset gives
    the empty string) the publish step raises [ValueError] and sends no
    request; with a slash its first request is a lookup. *)
Theorem publish_needs_repository {S} (gh : GitHub S)
    (repo tag body_md : string) (st : S) :
  (count "/" repo = 0 →
   _get_or_create_release gh repo tag body_md st = (st, [], throw ValueError))
  ∧ (count "/" repo ≠ 0 →
     ∃ url rest,
       snd (fst (_get_or_create_release gh repo tag body_md st))
       = GET url :: rest).
Proof.
  unfold _get_or_create_release. split.
  - intros H0. apply split_once_none in H0. by rewrite H0.
  - intros Hne. destruct (split_once "/" repo) as [[owner project]|] eqn:Hr.
    2:{ apply split_once_none in Hr. contradiction. }
    destruct (status_code _ =? 404).
    + destruct (gh_post gh st _ _) as [st' r']. cbn [fst snd]. by eexists _, _.
    + cbn [fst snd]. by eexists _, _.
Qed.

Lemma publish_needs_repository_witness :
  _get_or_create_release reference_github "" sample_tag "notes" ∅
  = (∅, [], throw ValueError).
Proof.
  apply (publish_needs_repository reference_github "" sample_tag "notes" ∅).
  reflexivity.
Defined.





(** ** One run of the pipeline *)

Lemma download_all_ok (h : Host) (cf : CurseForge) (files : list FileInfo)
    (fs fs1 : gmap string string) (log : list Event)
    (downloads : list (string * string * FileInfo)) :
  download_all h cf files fs = (log, fs1, ok downloads) →
  map snd downloads = files
  ∧ Forall (fun d : string * string * FileInfo =>
              outcome (_download_file h (cf_file cf) d.2) = ok d) downloads
  ∧ (∀ name, (∀ d, d ∈ downloads → d.1.1 ≠ name) → fs1 !! name = fs !! name)
  ∧ (∀ l1 d l2, downloads = l1 ++ d :: l2 →
       (∀ d', d' ∈ l2 → d'.1.1 ≠ d.1.1) →
       fs1 !! d.1.1 = Some (json (cf_file cf (downloadUrl d.2)))).
Proof.
  revert fs fs1 log downloads.
  induction files as [|info files IH]; intros fs fs1 log downloads;
    cbn [download_all].
  - intros [= <- <- <-]. split; [reflexivity|]. split; [constructor|].
    split; [reflexivity|]. intros [|? ?] d l2 Heq; discriminate Heq.
  - destruct (_download_file h (cf_file cf) info) as [log0 [e|d0]] eqn:Hd;
      [discriminate|].
    destruct (download_all h cf files _) as [[log' fs''] r] eqn:Hrest.
    destruct r as [e|ds]; cbn [rbind ok]; [discriminate|].
    intros [= <- <- <-].
    destruct (IH _ _ _ _ Hrest) as (Hsnd & Hall & Hkeep & Hlast).
    assert (outcome (_download_file h (cf_file cf) info) = ok d0) as Hout
      by (by rewrite Hd).
    assert (d0.2 = info) as Hinfo.
    { rewrite download_outcome in Hout.
      destruct (outcome (_pick_slug h info)); [discriminate|].
      cbn [rbind] in Hout. destruct (raise_for_status _); [discriminate|].
      by injection Hout as <-. }
    split; [cbn [map]; by rewrite Hsnd, Hinfo|].
    split; [constructor; [by rewrite Hinfo|assumption]|].
    split.
    + intros name Hname. rewrite Hkeep.
      * apply lookup_insert_ne. apply Hname. left.
      * intros d Hin. apply Hname. by right.
    + intros l1 d l2 Heq Hlater. destruct l1 as [|d1 l1].
      * injection Heq as <- <-. rewrite Hkeep by exact Hlater.
        rewrite Hinfo. apply lookup_insert_eq.
      * injection Heq as <- ->. by apply (Hlast l1 d l2).
Qed.

(** X27. Among the builds downloaded in one run, the last one stored
    under a local file name is the one whose bytes the file has at the
    end; files under other names are as they were. When two builds get
    the same local file name, the bytes of the earlier one are lost. *)
Theorem download_all_last_wins (h : Host) (cf : CurseForge)
    (files : list FileInfo) (fs fs1 : gmap string string)
    (log : list Event) (downloads : list (string * string * FileInfo)) :
  download_all h cf files fs = (log, fs1, ok downloads) →
  (∀ l1 d l2, downloads = l1 ++ d :: l2 →
     (∀ d', d' ∈ l2 → d'.1.1 ≠ d.1.1) →
     fs1 !! d.1.1 = Some (json (cf_file cf (downloadUrl d.2))))
  ∧ (∀ name, (∀ d, d ∈ downloads → d.1.1 ≠ name) →
             fs1 !! name = fs !! name).
Proof.
  intros Hrun.
  destruct (download_all_ok h cf files fs fs1 log downloads Hrun)
    as (_ & _ & Hkeep & Hlast).
  by split.
Qed.

Lemma download_all_last_wins_witness :
  ∃ log fs1,
    download_all host_without_bash (sample_curseforge twin_mod)
      [build_at 20 "cdn/20" ["4.4.0"]; build_at 21 "cdn/21" ["4.4.1"]] ∅
    = (log, fs1,
       ok [("Addon-1.2.3-cata.zip", "cata", build_at 20 "cdn/20" ["4.4.0"]);
           ("Addon-1.2.3-cata.zip", "cata", build_at 21 "cdn/21" ["4.4.1"])])
    ∧ fs1 !! "Addon-1.2.3-cata.zip" = Some "bytes of cdn/21".
Proof.
  destruct (download_all host_without_bash (sample_curseforge twin_mod)
              [build_at 20 "cdn/20" ["4.4.0"]; build_at 21 "cdn/21" ["4.4.1"]]
              ∅) as [[log fs1] r] eqn:Hrun.
  assert (r = ok [("Addon-1.2.3-cata.zip", "cata",
                   build_at 20 "cdn/20" ["4.4.0"]);
                  ("Addon-1.2.3-cata.zip", "cata",
                   build_at 21 "cdn/21" ["4.4.1"])]) as ->.
  { apply (f_equal snd) in Hrun. cbn [snd] in Hrun. rewrite <- Hrun.
    reflexivity. }
  exists log, fs1. split; [reflexivity|].
  apply (proj1 (download_all_last_wins _ _ _ _ _ _ _ Hrun)
           [("Addon-1.2.3-cata.zip", "cata", build_at 20 "cdn/20" ["4.4.0"])]
           ("Addon-1.2.3-cata.zip", "cata", build_at 21 "cdn/21" ["4.4.1"])
           []).
  - reflexivity.
  - intros d' Hin. inversion Hin.
Defined.


Lemma upload_all_assets {S} (forge : Forge S) (url : string)
    (assets : list (string * string)) (fs : gmap string string) (st : S) :
  Forall (fun t => ∃ u, t = Asset u) (upload_all forge url assets fs st).1.2.
Proof.
  revert st. induction assets as [|[fn ctype] assets IH]; intros st;
    cbn [upload_all]; [constructor|].
  unfold _upload_asset. destruct (fs !! fn) as [bytes|]; [|constructor].
  destruct (forge_upload forge st _) as [st1 status].
  destruct (raise_for_status _) as [e|[]].
  - cbn [fst snd]. constructor; [by eexists|constructor].
  - specialize (IH st1).
    destruct (upload_all forge url assets fs st1) as [[st2 sent'] r].
    cbn [fst snd app] in *. constructor; [by eexists|assumption].
Qed.



Example sample_run_traffic :
  ending sample_run = Completed
  ∧ map (fun t => match t with
                  | Release (GET _) => "lookup"
                  | Release (POST _ _) => "create"
                  | Asset u => asset_name u
                  end) (traffic sample_run)
    = ["lookup"; "create"; "Addon-1.2.3-cata.zip"; "Addon-1.2.3.zip";
       "release.json"].
Proof. split; reflexivity. Qed.

Lemma publish_without_request {T} (gh : GitHub T)
    (repo tag body_md : string) (st st1 : T) (out : result string) :
  _get_or_create_release gh repo tag body_md st = (st1, [], out) →
  st1 = st ∧ out = throw ValueError.
Proof.
  unfold _get_or_create_release.
  destruct (split_once "/" repo) as [[owner project]|];
    [|by intros [= <- <-]].
  destruct (status_code _ =? 404).
  - destruct (gh_post gh st _ _) as [st' r']. discriminate.
  - discriminate.
Qed.

(** X29. A run sends nothing to the source-hosting service, and leaves
    it as it is, unless the builds were found, every build was resolved
    and downloaded, the manifest was built and written, and every
    changelog was fetched: the release is looked up or created only after
    all of that. *)
Theorem run_publishes_last {T} (h : Host) (cf : CurseForge) (forge : Forge T)
    (to_markdown : string -> string) (dump : list Manifest.Entry -> string)
    (repo tag mod_name : string) (version_types : gmap Z string)
    (fs : gmap string string) (st : T) :
  let r := run h cf forge to_markdown dump repo tag mod_name version_types
             fs st in
  (traffic r = [] → service r = st)
  ∧ (traffic r ≠ [] →
     ∃ files log fs1 downloads manifest changelogs,
       _get_latest_files (cf_mod cf) = ok files ∧ files ≠ []
       ∧ download_all h cf files fs = (log, fs1, ok downloads)
       ∧ _build_manifest mod_name version_types downloads = ok manifest
       ∧ files_written r = <["release.json" := dump manifest]> fs1
       ∧ rmap (fun d : string * string * FileInfo =>
                 _fetch_changelog_md to_markdown (cf_changelog cf (id d.2)))
              downloads = ok changelogs).
Proof.
  cbv zeta. unfold run.
  destruct (_get_latest_files (cf_mod cf)) as [e|files] eqn:Hfiles;
    [by split|].
  destruct files as [|f0 files']; [by split|].
  destruct (download_all h cf (f0 :: files') fs) as [[log fs1] [e|downloads]]
    eqn:Hdl; [by split|].
  destruct (_build_manifest mod_name version_types downloads)
    as [e|manifest] eqn:Hman; [by split|].
  destruct (rmap _ downloads) as [e|changelogs] eqn:Hlogs; [by split|].
  destruct (_get_or_create_release _ repo tag _ st) as [[st1 reqs] [e|url]]
    eqn:Hpub.
  - cbn [traffic service files_written]. split.
    + intros Hnone. destruct reqs; [|discriminate Hnone].
      by apply publish_without_request in Hpub as [-> _].
    + intros _. eexists _, _, _, _, _, _.
      split; [reflexivity|]. split; [discriminate|]. by repeat split.
  - destruct (upload_all forge url _ _ st1) as [[st2 sent] r] eqn:Hup.
    cbn [traffic service files_written]. split.
    + intros Hnone. destruct reqs; [|discriminate Hnone].
      apply publish_without_request in Hpub as [_ Hout]. discriminate Hout.
    + intros _. eexists _, _, _, _, _, _.
      split; [reflexivity|]. split; [discriminate|]. by repeat split.
Qed.

Lemma run_publishes_last_witness :
  service
    (run host_failing (sample_curseforge sample_mod) reference_forge
       (fun html => html) (fun _ => "{}") "owner/addon" sample_tag "Addon" ∅
       ∅ ∅) = ∅.
Proof.
  apply (run_publishes_last host_failing (sample_curseforge sample_mod)
           reference_forge (fun html => html) (fun _ => "{}") "owner/addon"
           sample_tag "Addon" ∅ ∅ ∅).
  reflexivity.
Defined.

(** X30. A run leaves the process by [sys.exit] only with code 1, and
    exactly when the mod descriptor is answered without error and gives
    no build; nothing is then written or sent, and the host is not
    accessed. *)
Theorem run_without_builds {T} (h : Host) (cf : CurseForge) (forge : Forge T)
    (to_markdown : string -> string) (dump : list Manifest.Entry -> string)
    (repo tag mod_name : string) (version_types : gmap Z string)
    (fs : gmap string string) (st : T) :
  let r := run h cf forge to_markdown dump repo tag mod_name version_types
             fs st in
  (_get_latest_files (cf_mod cf) = ok [] →
   r = {| host_log := []; files_written := fs; service := st;
          traffic := []; ending := Exited 1 |})
  ∧ (∀ code, ending r = Exited code →
       code = 1 ∧ _get_latest_files (cf_mod cf) = ok []).
Proof.
  cbv zeta. unfold run. split.
  - by intros ->.
  - intros code.
    destruct (_get_latest_files (cf_mod cf)) as [e|files]; [discriminate|].
    destruct files as [|f0 files']; [by intros [= <-]|].
    destruct (download_all h cf (f0 :: files') fs) as [[l fs1] [e|downloads]];
      [discriminate|].
    destruct (_build_manifest mod_name version_types downloads)
      as [e|manifest]; [discriminate|].
    destruct (rmap _ downloads) as [e|changelogs]; [discriminate|].
    destruct (_get_or_create_release _ repo tag _ st)
      as [[st1 reqs] [e|url]]; [discriminate|].
    destruct (upload_all forge url _ _ st1) as [[st2 sent] [e|[]]];
      discriminate.
Qed.

Lemma run_without_builds_witness :
  run host_with_bash
    (sample_curseforge
       {| status_code := 200;
          json := {| latestFiles := Some [build 11 2 ["1.15.6"]];
                     latestFilesIndexes :=
                       Some [ {| fileId := 11; gameVersion := "" |} ] |} |})
    reference_forge (fun html => html) (fun _ => "{}") "owner/addon"
    sample_tag "Addon" ∅ ∅ ∅
  = {| host_log := []; files_written := ∅; service := ∅; traffic := [];
       ending := Exited 1 |}.
Proof.
  apply (run_without_builds host_with_bash
           (sample_curseforge
              {| status_code := 200;
                 json := {| latestFiles := Some [build 11 2 ["1.15.6"]];
                            latestFilesIndexes :=
                              Some [ {| fileId := 11; gameVersion := "" |} ]
                         |} |})
           reference_forge (fun html => html) (fun _ => "{}") "owner/addon"
           sample_tag "Addon" ∅ ∅ ∅).
  reflexivity.
Defined.

Lemma search_version_none_iff_witness : search_version "Addon.zip" = None.
Proof.
  apply (search_version_none_iff "Addon.zip").
  intros (pre & v & post & Hfn & Hrun).
  assert (search_version (pre +:+ v +:+ post) = None) as Hnone
    by (by rewrite <- Hfn).
  destruct (search_version (pre +:+ v +:+ post)) eqn:Hs; [discriminate|].
  apply search_version_none_iff in Hs. apply Hs. by exists pre, v, post.
Defined.

Lemma local_filename_suffix_witness :
  ∃ stem, local_filename "Addon-1.2.3.zip" "wrath" = stem +:+ ".zip"
          ∧ ("wrath" ≠ "" → ∃ p, stem = p +:+ "-" +:+ "wrath").
Proof. apply (local_filename_suffix "Addon-1.2.3.zip" "wrath"). Defined.

Lemma classic_band_witness : toc_to_type 11506 = "classic".
Proof. apply (classic_band 11506). lia. Defined.
